(** * Argus: file-system events over web sockets

    A shallow embedding of [argus/handler.py]: option resolution
    ([define_options]), the event handler class [Argus] with its four
    [on_*] methods and its subscriber list, and the web-socket handler
    class [ArgusWebSocketHandler] with the two module-level registries
    [active_handlers] and [active_observers].

    Python objects live in stores indexed by their identity, so that the
    handler reached through [active_handlers] and the handler scheduled
    on an observer are one mutable object.  Methods are computations in
    a state-and-exception monad over that store.  The libraries the
    module calls (tornado's web socket, watchdog's observer, [re.sub],
    [os.path.join]) are modelled as far as the module uses them, and
    [settings.ARGUS_ROOT] is a parameter.  Console output ([print]) and
    the unused [self.args] are left out. *)

From Stdlib Require Import Ascii String.
From stdpp Require Import gmap strings list fin_maps.

Open Scope string_scope.

(** ** Option resolution *)

Definition default_options : list string :=
  ["CRfile"; "CRdir"; "MDfile"; "MDdir"; "MVfile"; "MVdir"; "DLfile"; "DLdir"].

(** Python's [set(l)]. *)
Definition py_set (l : list string) : gset string := list_to_set l.

(** [define_options(enable, disable)].  [disable == enable == []] is the
    chained comparison [disable == enable and enable == []]; [list(s)] of
    a set is [elements s] (some order without repetition). *)
Definition define_options (enable disable : list string) : list string :=
  if bool_decide (disable = enable ∧ enable = []) then
    default_options
  else if bool_decide ("all" ∈ disable) then
    elements (py_set enable ∩ py_set default_options)
  else
    elements (py_set default_options ∖ py_set disable).

(** The resolution rule in the words of the specification, on sets. *)
Definition resolve (enable disable : list string) : gset string :=
  if bool_decide ("all" ∈ disable) then py_set enable ∩ py_set default_options
  else py_set default_options ∖ py_set disable.

(** ** [re.sub]

    The handler calls [sub(self.root, '', path)] with the watched root as
    the *pattern*.  The model covers patterns made of ordinary characters
    and of [.], which matches any character but a newline; that is what
    directory names are made of.  Every atom consumes one character, so a
    match at a position is decided without backtracking.  [re_plain] says
    a pattern lies in that fragment; the remaining metacharacters are
    outside the model. *)
Module Re.

Definition newline : Ascii.ascii := Ascii.ascii_of_nat 10.

Definition metachar (c : Ascii.ascii) : bool :=
  bool_decide (c ∈ String.list_ascii_of_string "^$*+?{}[]\|()").

Definition re_plain (pattern : string) : bool :=
  forallb (λ c, negb (metachar c)) (String.list_ascii_of_string pattern).

Definition atom_matches (p c : Ascii.ascii) : bool :=
  if bool_decide (p = "."%char) then negb (bool_decide (c = newline))
  else bool_decide (p = c).

(** Does [pattern] match at the front of [s]? *)
Fixpoint match_here (pattern s : string) : bool :=
  match pattern, s with
  | EmptyString, _ => true
  | String _ _, EmptyString => false
  | String p pattern', String c s' => atom_matches p c && match_here pattern' s'
  end.

(** Left-to-right scan: [skip] counts the characters of the current
    match still to be dropped. *)
Fixpoint scan (pattern repl : string) (skip : nat) (s : string) : string :=
  match s with
  | EmptyString => EmptyString
  | String c s' =>
      match skip with
      | S k => scan pattern repl k s'
      | O =>
          if match_here pattern s
          then repl +:+ scan pattern repl (String.length pattern - 1) s'
          else String c (scan pattern repl 0 s')
      end
  end.

(** The empty pattern matches before every character and at the end. *)
Fixpoint between (repl s : string) : string :=
  match s with
  | EmptyString => repl
  | String c s' => repl +:+ String c (between repl s')
  end.

(** [re.sub(pattern, repl, s)] for a plain pattern: every non-overlapping
    match, leftmost first, is replaced by [repl]. *)
Definition sub (pattern repl s : string) : string :=
  if bool_decide (pattern = "") then between repl s
  else scan pattern repl 0 s.

End Re.

(** ** [os.path.join] (posixpath, two arguments) *)

Fixpoint endswith_slash (s : string) : bool :=
  match s with
  | EmptyString => false
  | String c EmptyString => bool_decide (c = "/"%char)
  | String _ s' => endswith_slash s'
  end.

Definition path_join (a b : string) : string :=
  if String.prefix "/" b then b
  else if bool_decide (a = "") || endswith_slash a then a +:+ b
  else a +:+ "/" +:+ b.

(** ** File-system events (watchdog) *)

Record FileSystemEvent := {
  is_directory : bool;
  src_path : string;
}.

Record FileSystemMovedEvent := {
  moved_is_directory : bool;
  moved_src_path : string;
  dest_path : string;
}.

(** An event tagged with its [event_type]; watchdog's [dispatch] selects
    the [on_*] method by this tag. *)
Inductive raw_event :=
  | EVENT_TYPE_CREATED (event : FileSystemEvent)
  | EVENT_TYPE_MODIFIED (event : FileSystemEvent)
  | EVENT_TYPE_DELETED (event : FileSystemEvent)
  | EVENT_TYPE_MOVED (event : FileSystemMovedEvent).

(** ** Messages *)

Inductive json :=
  | JString (s : string)
  | JBool (b : bool).

Global Instance json_eq_dec : EqDecision json.
Proof. solve_decision. Defined.

(** What a web socket is asked to write: a plain diagnostic, or the
    [dumps] of a dictionary. *)
Inductive message :=
  | Text (s : string)
  | Json (d : gmap string json).

Global Instance message_eq_dec : EqDecision message.
Proof. solve_decision. Defined.

Definition dumps (d : gmap string json) : message := Json d.

(** ** The object store *)

(** An [Argus] event handler; [websockets] holds the identities of the
    subscribed web-socket handlers, in subscription order. *)
Record Argus := {
  websockets : list nat;
  root : string;
  options : list string;
}.

Inductive thread_state := Unstarted | Running | Stopped.

(** A watchdog [Observer]: the watches scheduled on it (handler, path,
    recursive) and the state of its thread. *)
Record Observer := {
  watches : list (nat * string * bool);
  state : thread_state;
}.

(** An [ArgusWebSocketHandler].  [kwargs] and [arguments] are the URL
    captures and the (stripped) query arguments of the request;
    [callback] is the keep-alive timer ([None] before [open]);
    [ws_connection] is the transport, [written] what was written to it,
    [closed] whether [close()] was called. *)
Record ArgusWebSocketHandler := {
  started_observer : bool;
  observer : option nat;
  path : option string;
  kwargs : gmap string string;
  arguments : gmap string (list string);
  callback : option bool;
  ws_connection : bool;
  closed : bool;
  written : list message;
}.

Record World := {
  active_handlers : gmap string nat;
  active_observers : gmap string nat;
  handlers : gmap nat Argus;
  observers : gmap nat Observer;
  sockets : gmap nat ArgusWebSocketHandler;
}.

Definition initial : World :=
  {| active_handlers := ∅; active_observers := ∅;
     handlers := ∅; observers := ∅; sockets := ∅ |}.

Definition with_active_handlers (m : gmap string nat) (w : World) : World :=
  {| active_handlers := m; active_observers := active_observers w;
     handlers := handlers w; observers := observers w; sockets := sockets w |}.

Definition with_active_observers (m : gmap string nat) (w : World) : World :=
  {| active_handlers := active_handlers w; active_observers := m;
     handlers := handlers w; observers := observers w; sockets := sockets w |}.

Definition with_handlers (m : gmap nat Argus) (w : World) : World :=
  {| active_handlers := active_handlers w; active_observers := active_observers w;
     handlers := m; observers := observers w; sockets := sockets w |}.

Definition with_observers (m : gmap nat Observer) (w : World) : World :=
  {| active_handlers := active_handlers w; active_observers := active_observers w;
     handlers := handlers w; observers := m; sockets := sockets w |}.

Definition with_sockets (m : gmap nat ArgusWebSocketHandler) (w : World) : World :=
  {| active_handlers := active_handlers w; active_observers := active_observers w;
     handlers := handlers w; observers := observers w; sockets := m |}.

(** ** The monad of Python computations *)

(** [Dangling] is raised by the model when an identity is not in the
    store; Python has no such case, and well-formed worlds never hit it. *)
Inductive exn :=
  | KeyError | AttributeError | OSError | WebSocketClosedError | Dangling.

Global Instance exn_eq_dec : EqDecision exn.
Proof. solve_decision. Defined.

Inductive outcome (A : Type) :=
  | Returned (a : A)
  | Raised (e : exn).
Arguments Returned {A} a.
Arguments Raised {A} e.

Definition Py (A : Type) : Type := World → World * outcome A.

Definition ret {A} (a : A) : Py A := λ w, (w, Returned a).

Definition bind {A B} (m : Py A) (k : A → Py B) : Py B :=
  λ w, match m w with
       | (w', Returned a) => k a w'
       | (w', Raised e) => (w', Raised e)
       end.

Definition raise {A} (e : exn) : Py A := λ w, (w, Raised e).

(** [try: m except e: h] *)
Definition try_except {A} (m : Py A) (e : exn) (h : Py A) : Py A :=
  λ w, match m w with
       | (w', Raised e') => if decide (e' = e) then h w' else (w', Raised e')
       | r => r
       end.

Declare Scope py_scope.
Delimit Scope py_scope with py.
Bind Scope py_scope with Py.
Notation "x ← m ; k" := (bind m (λ x, k))
  (at level 20, m at level 100, k at level 200, only parsing) : py_scope.
Notation "m ;; k" := (bind m (λ _, k))
  (at level 100, k at level 200, right associativity, only parsing) : py_scope.

(** [for x in l: body x] *)
Fixpoint for_each {A} (l : list A) (body : A → Py unit) : Py unit :=
  match l with
  | [] => ret ()
  | x :: l' => (body x ;; for_each l' body)%py
  end.

Definition get : Py World := λ w, (w, Returned w).
Definition modify (f : World → World) : Py unit := λ w, (f w, Returned ()).

(** A read of an optional value that raises [e] when it is absent. *)
Definition or_raise {A} (o : option A) (e : exn) : Py A :=
  match o with Some a => ret a | None => raise e end.

Definition get_handler (h : nat) : Py Argus :=
  (w ← get; or_raise (handlers w !! h) Dangling)%py.

Definition get_observer (o : nat) : Py Observer :=
  (w ← get; or_raise (observers w !! o) Dangling)%py.

Definition get_socket (s : nat) : Py ArgusWebSocketHandler :=
  (w ← get; or_raise (sockets w !! s) Dangling)%py.

Definition update_handler (h : nat) (f : Argus → Argus) : Py unit :=
  (a ← get_handler h; modify (λ w, with_handlers (<[h := f a]> (handlers w)) w))%py.

Definition update_observer (o : nat) (f : Observer → Observer) : Py unit :=
  (ob ← get_observer o; modify (λ w, with_observers (<[o := f ob]> (observers w)) w))%py.

Definition update_socket (s : nat) (f : ArgusWebSocketHandler → ArgusWebSocketHandler) : Py unit :=
  (sk ← get_socket s; modify (λ w, with_sockets (<[s := f sk]> (sockets w)) w))%py.

(** ** Attribute assignment *)

Definition set_websockets (l : list nat) (a : Argus) : Argus :=
  {| websockets := l; root := root a; options := options a |}.

Definition set_watches (l : list (nat * string * bool)) (ob : Observer) : Observer :=
  {| watches := l; state := state ob |}.

Definition set_state (st : thread_state) (ob : Observer) : Observer :=
  {| watches := watches ob; state := st |}.

Definition set_started_observer (b : bool) (s : ArgusWebSocketHandler) :=
  {| started_observer := b; observer := observer s; path := path s;
     kwargs := kwargs s; arguments := arguments s; callback := callback s;
     ws_connection := ws_connection s; closed := closed s; written := written s |}.

Definition set_observer (o : option nat) (s : ArgusWebSocketHandler) :=
  {| started_observer := started_observer s; observer := o; path := path s;
     kwargs := kwargs s; arguments := arguments s; callback := callback s;
     ws_connection := ws_connection s; closed := closed s; written := written s |}.

Definition set_path (p : option string) (s : ArgusWebSocketHandler) :=
  {| started_observer := started_observer s; observer := observer s; path := p;
     kwargs := kwargs s; arguments := arguments s; callback := callback s;
     ws_connection := ws_connection s; closed := closed s; written := written s |}.

Definition set_kwargs (k : gmap string string) (s : ArgusWebSocketHandler) :=
  {| started_observer := started_observer s; observer := observer s; path := path s;
     kwargs := k; arguments := arguments s; callback := callback s;
     ws_connection := ws_connection s; closed := closed s; written := written s |}.

Definition set_callback (c : option bool) (s : ArgusWebSocketHandler) :=
  {| started_observer := started_observer s; observer := observer s; path := path s;
     kwargs := kwargs s; arguments := arguments s; callback := c;
     ws_connection := ws_connection s; closed := closed s; written := written s |}.

Definition set_ws_connection (c : bool) (s : ArgusWebSocketHandler) :=
  {| started_observer := started_observer s; observer := observer s; path := path s;
     kwargs := kwargs s; arguments := arguments s; callback := callback s;
     ws_connection := c; closed := closed s; written := written s |}.

Definition set_closed (c : bool) (s : ArgusWebSocketHandler) :=
  {| started_observer := started_observer s; observer := observer s; path := path s;
     kwargs := kwargs s; arguments := arguments s; callback := callback s;
     ws_connection := ws_connection s; closed := c; written := written s |}.

Definition set_written (l : list message) (s : ArgusWebSocketHandler) :=
  {| started_observer := started_observer s; observer := observer s; path := path s;
     kwargs := kwargs s; arguments := arguments s; callback := callback s;
     ws_connection := ws_connection s; closed := closed s; written := l |}.

(** ** The transport (tornado's [WebSocketHandler]) *)

(** [write_message] raises [WebSocketClosedError] once the connection is
    gone. *)
Definition write_message (self : nat) (m : message) : Py unit :=
  (s ← get_socket self;
   if ws_connection s
   then update_socket self (λ s, set_written (written s ++ [m]) s)
   else raise WebSocketClosedError)%py.

Definition close (self : nat) : Py unit :=
  update_socket self (λ s, set_closed true (set_ws_connection false s)).

(** ** The observer (watchdog's [Observer]) *)

(** What the operating system answers while a connection is opened:
    [os.path.exists], and whether an observer thread can be started
    ([Observer.start] raises [OSError] when it cannot). *)
Record OS := {
  os_path_exists : string → bool;
  can_start : bool;
}.

Definition Observer_new : Py nat :=
  (w ← get;
   let o := fresh (dom (observers w)) in
   modify (λ w, with_observers
                  (<[o := {| watches := []; state := Unstarted |}]> (observers w)) w) ;;
   ret o)%py.

Definition schedule (self event_handler : nat) (p : string) (recursive : bool) : Py unit :=
  update_observer self (λ ob, set_watches (watches ob ++ [(event_handler, p, recursive)]) ob).

Definition start (os : OS) (self : nat) : Py unit :=
  if can_start os then update_observer self (set_state Running)
  else raise OSError.

Definition stop (self : nat) : Py unit :=
  update_observer self (set_state Stopped).

(** ** class [Argus] *)

Definition Argus_new (web_socket : nat) (root : string) (options : list string) : Py nat :=
  (w ← get;
   let h := fresh (dom (handlers w)) in
   modify (λ w, with_handlers
                  (<[h := {| websockets := [web_socket]; root := root;
                             options := options |}]> (handlers w)) w) ;;
   ret h)%py.

Definition write_msg (self : nat) (m : message) : Py unit :=
  (a ← get_handler self;
   for_each (websockets a) (λ wbsocket, write_message wbsocket m))%py.

Definition on_created (self : nat) (event : FileSystemEvent) : Py unit :=
  (a ← get_handler self;
   let is_dir := is_directory event in
   if (is_dir && bool_decide ("CRdir" ∈ options a))
      || (negb is_dir && bool_decide ("CRfile" ∈ options a))
   then write_msg self (dumps (list_to_map
          [("event_type", JString "created");
           ("is_directory", JBool (is_directory event));
           ("src_path", JString (Re.sub (root a) "" (src_path event)))]))
   else ret ())%py.

Definition on_modified (self : nat) (event : FileSystemEvent) : Py unit :=
  (a ← get_handler self;
   let is_dir := is_directory event in
   if (is_dir && bool_decide ("MDdir" ∈ options a))
      || (negb is_dir && bool_decide ("MDfile" ∈ options a))
   then write_msg self (dumps (list_to_map
          [("event_type", JString "modified");
           ("is_directory", JBool (is_directory event));
           ("src_path", JString (Re.sub (root a) "" (src_path event)))]))
   else ret ())%py.

Definition on_deleted (self : nat) (event : FileSystemEvent) : Py unit :=
  (a ← get_handler self;
   let is_dir := is_directory event in
   if (is_dir && bool_decide ("DLdir" ∈ options a))
      || (negb is_dir && bool_decide ("DLfile" ∈ options a))
   then write_msg self (dumps (list_to_map
          [("event_type", JString "deleted");
           ("is_directory", JBool (is_directory event));
           ("src_path", JString (Re.sub (root a) "" (src_path event)))]))
   else ret ())%py.

Definition on_moved (self : nat) (event : FileSystemMovedEvent) : Py unit :=
  (a ← get_handler self;
   let is_dir := moved_is_directory event in
   if (is_dir && bool_decide ("MVdir" ∈ options a))
      || (negb is_dir && bool_decide ("MVfile" ∈ options a))
   then write_msg self (dumps (list_to_map
          [("event_type", JString "moved");
           ("is_directory", JBool (moved_is_directory event));
           ("src_path", JString (Re.sub (root a) "" (moved_src_path event)));
           ("dest_path", JString (Re.sub (root a) "" (dest_path event)))]))
   else ret ())%py.

Definition add_socket (self wbsocket : nat) : Py unit :=
  update_handler self (λ a, set_websockets (websockets a ++ [wbsocket]) a).

(** [list.remove]: the first occurrence goes. *)
Fixpoint list_remove_first (x : nat) (l : list nat) : list nat :=
  match l with
  | [] => []
  | y :: l' => if decide (x = y) then l' else y :: list_remove_first x l'
  end.

Definition remove_socket (self wbsocket : nat) : Py unit :=
  (a ← get_handler self;
   if bool_decide (wbsocket ∈ websockets a)
   then update_handler self
          (λ a, set_websockets (list_remove_first wbsocket (websockets a)) a)
   else ret ())%py.

(** watchdog's [dispatch]: the [on_*] method named by the event type.
    (The handler is built with the default regexes, which let every path
    through.) *)
Definition dispatch (self : nat) (ev : raw_event) : Py unit :=
  match ev with
  | EVENT_TYPE_CREATED event => on_created self event
  | EVENT_TYPE_MODIFIED event => on_modified self event
  | EVENT_TYPE_DELETED event => on_deleted self event
  | EVENT_TYPE_MOVED event => on_moved self event
  end.

(** A running observer hands an event to the handlers scheduled on it. *)
Definition emit (o : nat) (ev : raw_event) : Py unit :=
  (ob ← get_observer o;
   match state ob with
   | Running => for_each (watches ob) (λ wt, dispatch wt.1.1 ev)
   | _ => ret ()
   end)%py.

(** ** class [ArgusWebSocketHandler] *)

Section Session.

(** [settings.ARGUS_ROOT] *)
Variable ARGUS_ROOT : string.

(** [__init__], for a request with the given query arguments. *)
Definition ArgusWebSocketHandler_new (request : gmap string (list string)) : Py nat :=
  (w ← get;
   let s := fresh (dom (sockets w)) in
   modify (λ w, with_sockets
                  (<[s := {| started_observer := false; observer := None;
                             path := None; kwargs := ∅; arguments := request;
                             callback := None; ws_connection := true;
                             closed := false; written := [] |}]> (sockets w)) w) ;;
   ret s)%py.

Definition get_arguments (s : ArgusWebSocketHandler) (name : string) : list string :=
  default [] (arguments s !! name).

Definition initiation_handler (os : OS) (self : nat) : Py unit :=
  (s ← get_socket self;
   path_arg ← or_raise (kwargs s !! "path") AttributeError;
   let p := path_join ARGUS_ROOT path_arg in
   update_socket self (set_path (Some p)) ;;
   if negb (os_path_exists os p) then
     write_message self (Text "Path does not exist.") ;;
     close self
   else
     w ← get;
     if bool_decide (p ∈ dom (active_observers w)) then
       event_handler ← or_raise (active_handlers w !! p) KeyError;
       add_socket event_handler self ;;
       o ← or_raise (active_observers w !! p) KeyError;
       update_socket self (set_observer (Some o)) ;;
       update_socket self (set_started_observer true)
     else
       let enable := get_arguments s "enable" in
       let disable := get_arguments s "disable" in
       let options := define_options enable disable in
       if bool_decide (options = []) then ret ()
       else
         event_handler ← Argus_new self p options;
         o ← Observer_new;
         update_socket self (set_observer (Some o)) ;;
         schedule o event_handler p true ;;
         started ← try_except (start os o ;; ret true) OSError
                    (write_message self (Text "Cannot start observer") ;;
                     close self ;;
                     ret false);
         if started : bool then
           modify (λ w, with_active_handlers
                          (<[p := event_handler]> (active_handlers w)) w) ;;
           modify (λ w, with_active_observers
                          (<[p := o]> (active_observers w)) w) ;;
           update_socket self (set_started_observer true)
         else ret ())%py.

Definition open (os : OS) (self : nat) (kw : gmap string string) : Py unit :=
  (update_socket self (set_kwargs kw) ;;
   update_socket self (set_callback (Some true)) ;;
   initiation_handler os self)%py.

(** [del active_observers[p]] and [del active_handlers[p]] *)
Definition del_active_observers (p : string) : Py unit :=
  (w ← get;
   if bool_decide (p ∈ dom (active_observers w))
   then modify (λ w, with_active_observers (delete p (active_observers w)) w)
   else raise KeyError)%py.

Definition del_active_handlers (p : string) : Py unit :=
  (w ← get;
   if bool_decide (p ∈ dom (active_handlers w))
   then modify (λ w, with_active_handlers (delete p (active_handlers w)) w)
   else raise KeyError)%py.

Definition on_close (self : nat) : Py unit :=
  (s ← get_socket self;
   match callback s with
   | Some _ => update_socket self (set_callback (Some false))
   | None => raise AttributeError
   end ;;
   if started_observer s then
     w ← get;
     p ← or_raise (path s) KeyError;
     event_handler ← or_raise (active_handlers w !! p) KeyError;
     remove_socket event_handler self ;;
     a ← get_handler event_handler;
     if bool_decide (websockets a = []) then
       o ← or_raise (observer s) AttributeError;
       stop o ;;
       del_active_observers p ;;
       del_active_handlers p
     else ret ()
   else ret ())%py.

(** ** The server as a transition system

    One step per callback: a connection is opened ([__init__] then
    [open]); a transport goes away (tornado sets [ws_connection] to
    [None]; [on_close] follows as a step of its own, and an observer may
    report an event in between); a connection is closed ([on_close],
    after which the object is dropped); or an observer reports an event.
    Each callback is taken as one atomic step. *)
Inductive action :=
  | Connect (os : OS) (kw : gmap string string) (request : gmap string (list string))
  | ConnectionLost (s : nat)
  | Disconnect (s : nat)
  | FsEvent (o : nat) (ev : raw_event).

Definition connect (os : OS) (kw : gmap string string)
    (request : gmap string (list string)) : Py nat :=
  (s ← ArgusWebSocketHandler_new request; open os s kw ;; ret s)%py.

Definition drop_socket (s : nat) (w : World) : World :=
  with_sockets (delete s (sockets w)) w.

Definition perform (a : action) (w : World) : World :=
  match a with
  | Connect os kw request => (connect os kw request w).1
  | ConnectionLost s => (update_socket s (set_ws_connection false) w).1
  | Disconnect s => drop_socket s (on_close s w).1
  | FsEvent o ev => (emit o ev w).1
  end.

Definition run (l : list action) (w : World) : World :=
  foldl (λ w a, perform a w) w l.

Inductive reachable : World → Prop :=
  | reachable_initial : reachable initial
  | reachable_step a w : reachable w → reachable (perform a w).

(** A connection whose URL names the directory [path_arg]. *)
Definition subscribe (os : OS) (path_arg : string)
    (request : gmap string (list string)) : action :=
  Connect os {["path" := path_arg]} request.

End Session.

(** ** The event filter in the words of the specification *)

(** created→CRfile/CRdir, modified→MDfile/MDdir, deleted→DLfile/DLdir,
    moved→MVfile/MVdir, selected by the directory flag. *)
Definition token_of (ev : raw_event) : string :=
  match ev with
  | EVENT_TYPE_CREATED e => if is_directory e then "CRdir" else "CRfile"
  | EVENT_TYPE_MODIFIED e => if is_directory e then "MDdir" else "MDfile"
  | EVENT_TYPE_DELETED e => if is_directory e then "DLdir" else "DLfile"
  | EVENT_TYPE_MOVED e => if moved_is_directory e then "MVdir" else "MVfile"
  end.

Definition event_type_of (ev : raw_event) : string :=
  match ev with
  | EVENT_TYPE_CREATED _ => "created"
  | EVENT_TYPE_MODIFIED _ => "modified"
  | EVENT_TYPE_DELETED _ => "deleted"
  | EVENT_TYPE_MOVED _ => "moved"
  end.

Definition is_directory_of (ev : raw_event) : bool :=
  match ev with
  | EVENT_TYPE_CREATED e | EVENT_TYPE_MODIFIED e | EVENT_TYPE_DELETED e => is_directory e
  | EVENT_TYPE_MOVED e => moved_is_directory e
  end.

Definition src_path_of (ev : raw_event) : string :=
  match ev with
  | EVENT_TYPE_CREATED e | EVENT_TYPE_MODIFIED e | EVENT_TYPE_DELETED e => src_path e
  | EVENT_TYPE_MOVED e => moved_src_path e
  end.

Definition dest_path_of (ev : raw_event) : option string :=
  match ev with
  | EVENT_TYPE_MOVED e => Some (dest_path e)
  | _ => None
  end.

(** The fields of a message: [dest_path] for moved events only. *)
Definition fields_of (ev : raw_event) : gset string :=
  match ev with
  | EVENT_TYPE_MOVED _ => {["event_type"; "is_directory"; "src_path"; "dest_path"]}
  | _ => {["event_type"; "is_directory"; "src_path"]}
  end.

(** The root-relative suffix of an absolute path under [root], as the
    specification words it: the path with the prefix [root] taken off. *)
Definition strip_root (root p : string) : option string :=
  if String.prefix root p
  then Some (String.substring (String.length root)
               (String.length p - String.length root) p)
  else None.

(** ** Fan-out, seen from the sockets *)

Definition push (m : message) (s : ArgusWebSocketHandler) : ArgusWebSocketHandler :=
  set_written (written s ++ [m]) s.

(** The socket store after [m] was written to the sockets of [l], in
    order. *)
Definition deliver (m : message) (l : list nat)
    (st : gmap nat ArgusWebSocketHandler) : gmap nat ArgusWebSocketHandler :=
  foldl (λ st s, alter (push m) s st) st l.

(** The socket [s] is in the store and its transport is open. *)
Definition transport_open (st : gmap nat ArgusWebSocketHandler) (s : nat) : Prop :=
  ∃ sk, st !! s = Some sk ∧ ws_connection sk = true.

(** How many messages the socket [s] was given so far. *)
Definition received (w : World) (s : nat) : nat :=
  match sockets w !! s with
  | Some sk => length (written sk)
  | None => 0
  end.

(** [s] is subscribed to the handler [self] and its transport is open. *)
Definition open_subscriber (w : World) (self s : nat) : bool :=
  match handlers w !! self, sockets w !! s with
  | Some a, Some sk => bool_decide (s ∈ websockets a) && ws_connection sk
  | _, _ => false
  end.

(** Per-subscriber isolation as the specification asks for it: whenever a
    forwarded event is fanned out, every subscriber whose own transport
    is open is given the message, whatever happens to the others. *)
Definition fanout_isolates_failures (w : World) (self : nat) (ev : raw_event) : Prop :=
  ∀ a s, handlers w !! self = Some a → token_of ev ∈ options a →
         open_subscriber w self s = true →
         received (dispatch self ev w).1 s = S (received w s).

(** ** Subscribers of a path *)

(** The subscriber list of the handler registered for [p] (empty when
    no handler is registered). *)
Definition subscribers_of (w : World) (p : string) : list nat :=
  match active_handlers w !! p with
  | Some h => match handlers w !! h with
              | Some a => websockets a
              | None => []
              end
  | None => []
  end.

(** Connections in a row to one path, each with its own answers of the
    operating system and its own request. *)
Definition subscribes (path_arg : string)
    (l : list (OS * gmap string (list string))) : list action :=
  map (λ x, subscribe x.1 path_arg x.2) l.

(** "N sessions subscribing to one existing path leave N subscribers",
    for any requests whatever. *)
Definition every_subscribe_attaches (ARGUS_ROOT : string) (path_arg : string)
    (l : list (OS * gmap string (list string))) (w : World) : Prop :=
  let p := path_join ARGUS_ROOT path_arg in
  Forall (λ x, os_path_exists x.1 p = true) l →
  length (subscribers_of (run ARGUS_ROOT (subscribes path_arg l) w) p) = length l.

(** A socket as [__init__] and [open] leave it, before
    [initiation_handler] decides anything but the path. *)
Definition opened (kw : gmap string string) (request : gmap string (list string))
    (p : option string) : ArgusWebSocketHandler :=
  {| started_observer := false; observer := None; path := p;
     kwargs := kw; arguments := request; callback := Some true;
     ws_connection := true; closed := false; written := [] |}.

(** ** Well-formed worlds

    What every world reached from [initial] satisfies: the two tables
    have the same paths; a registered handler watches its own path and
    has subscribers; a registered observer is running with that handler
    scheduled on that path; a running observer is registered; an attached
    socket is in the list of the handler of its path and holds the
    observer of its path; and every subscriber of a registered handler is
    a live, attached socket of that path. *)
Record wf (w : World) : Prop := {
  wf_tables : dom (active_handlers w) = dom (active_observers w);
  wf_handler : ∀ p h, active_handlers w !! p = Some h →
    ∃ a, handlers w !! h = Some a ∧ root a = p ∧ websockets a ≠ []
         ∧ NoDup (websockets a) ∧ options a ≠ [];
  wf_observer : ∀ p o, active_observers w !! p = Some o →
    ∃ h, active_handlers w !! p = Some h
         ∧ observers w !! o = Some {| watches := [(h, p, true)]; state := Running |};
  wf_running : ∀ o ob, observers w !! o = Some ob → state ob = Running →
    ∃ h p, watches ob = [(h, p, true)] ∧ active_observers w !! p = Some o;
  wf_attached : ∀ s sk, sockets w !! s = Some sk → started_observer sk = true →
    ∃ p h a, path sk = Some p ∧ active_handlers w !! p = Some h
             ∧ handlers w !! h = Some a ∧ s ∈ websockets a
             ∧ observer sk = active_observers w !! p;
  wf_subscriber : ∀ p h a s, active_handlers w !! p = Some h →
    handlers w !! h = Some a → s ∈ websockets a →
    ∃ sk, sockets w !! s = Some sk ∧ started_observer sk = true ∧ path sk = Some p;
  wf_callback : ∀ s sk, sockets w !! s = Some sk → is_Some (callback sk);
}.

(** The two tables name the same paths. *)
Definition same_keys (w : World) : Prop :=
  dom (active_handlers w) = dom (active_observers w).

(** The handler [h] is in the store, with the options [opts]. *)
Definition has_options (h : nat) (opts : list string) (w : World) : Prop :=
  ∃ a, handlers w !! h = Some a ∧ options a = opts.

(** Two states of one socket that differ in the transport only. *)
Definition same_session (sk sk' : ArgusWebSocketHandler) : Prop :=
  started_observer sk' = started_observer sk
  ∧ observer sk' = observer sk
  ∧ path sk' = path sk
  ∧ callback sk' = callback sk.

(** Two worlds that differ in the transports only. *)
Definition transport_only (w w' : World) : Prop :=
  active_handlers w' = active_handlers w
  ∧ active_observers w' = active_observers w
  ∧ handlers w' = handlers w
  ∧ observers w' = observers w
  ∧ ∀ s, option_Forall2 same_session (sockets w !! s) (sockets w' !! s).

(** ** What a computation leaves alone *)

(** A computation keeps a property of worlds, whether it returns or
    raises. *)
Definition preserves (I : World → Prop) {A} (m : Py A) : Prop :=
  ∀ w, I w → I (m w).1.

(** A computation touches the transports only. *)
Definition frames {A} (m : Py A) : Prop := ∀ w, transport_only w (m w).1.

(** A computation leaves both tables alone. *)
Definition keeps_tables {A} (m : Py A) : Prop :=
  ∀ w, active_handlers (m w).1 = active_handlers w
       ∧ active_observers (m w).1 = active_observers w.

(** A computation leaves the store of handlers alone. *)
Definition keeps_handlers {A} (m : Py A) : Prop :=
  ∀ w, handlers (m w).1 = handlers w.

(** ** Sample worlds *)

(** The directory [/watched/a] exists; observers can be started. *)
Definition os_ok : OS :=
  {| os_path_exists := λ p, bool_decide (p = "/watched/a"); can_start := true |}.

(** The same file system, with the operating system out of watches. *)
Definition os_exhausted : OS :=
  {| os_path_exists := λ p, bool_decide (p = "/watched/a"); can_start := false |}.

Definition request (enable disable : list string) : gmap string (list string) :=
  list_to_map [("enable", enable); ("disable", disable)].

Definition created_x : raw_event :=
  EVENT_TYPE_CREATED {| is_directory := false; src_path := "/watched/a/x.txt" |}.

Definition moved_x_y : raw_event :=
  EVENT_TYPE_MOVED {| moved_is_directory := false;
                      moved_src_path := "/watched/a/x.txt";
                      dest_path := "/watched/a/y.txt" |}.

(** A file two levels down, in a directory tree that repeats the name of
    the watched root. *)
Definition created_nested : raw_event :=
  EVENT_TYPE_CREATED
    {| is_directory := false; src_path := "/watched/a/backup/watched/a/x.txt" |}.

(** One session on [/watched/a] under the root [/watched], with the
    default options. *)
Definition one_subscriber : World :=
  run "/watched" [subscribe os_ok "a" ∅] initial.

(** One session on [/watched/a] that disabled [CRfile]. *)
Definition picky_subscriber : World :=
  run "/watched" [subscribe os_ok "a" (request [] ["CRfile"])] initial.

(** Two sessions on [/watched/a]. *)
Definition two_subscribers : World :=
  run "/watched" [subscribe os_ok "a" ∅; subscribe os_ok "a" ∅] initial.

(** The same, after the transport of the first session went away. *)
Definition first_lost : World :=
  perform "/watched" (ConnectionLost 0) two_subscribers.

(** Two sessions in a row; the first asks for nothing, the second for
    the defaults. *)
Definition nothing_then_default : list (OS * gmap string (list string)) :=
  [(os_ok, request [] ["all"]); (os_ok, ∅)].

(** ** Where a pattern matches *)

(** Does [pattern] match at some position of [s]? *)
Fixpoint occurs (pattern s : string) : bool :=
  match s with
  | EmptyString => false
  | String c s' => Re.match_here pattern s || occurs pattern s'
  end.

(** ** The message of an event *)

(** The dictionary the [on_*] method of the event's kind builds for a
    handler watching [root]. *)
Definition payload (root : string) (ev : raw_event) : gmap string json :=
  match ev with
  | EVENT_TYPE_CREATED e =>
      list_to_map [("event_type", JString "created");
                   ("is_directory", JBool (is_directory e));
                   ("src_path", JString (Re.sub root "" (src_path e)))]
  | EVENT_TYPE_MODIFIED e =>
      list_to_map [("event_type", JString "modified");
                   ("is_directory", JBool (is_directory e));
                   ("src_path", JString (Re.sub root "" (src_path e)))]
  | EVENT_TYPE_DELETED e =>
      list_to_map [("event_type", JString "deleted");
                   ("is_directory", JBool (is_directory e));
                   ("src_path", JString (Re.sub root "" (src_path e)))]
  | EVENT_TYPE_MOVED e =>
      list_to_map [("event_type", JString "moved");
                   ("is_directory", JBool (moved_is_directory e));
                   ("src_path", JString (Re.sub root "" (moved_src_path e)));
                   ("dest_path", JString (Re.sub root "" (dest_path e)))]
  end.

(** What the handler [a] sends for [ev], if anything. *)
Definition message_for (a : Argus) (ev : raw_event) : option message :=
  if bool_decide (token_of ev ∈ options a) then Some (dumps (payload (root a) ev))
  else None.

(** ** What a session was sent *)

Definition is_event (m : message) : Prop :=
  match m with Json _ => True | Text _ => False end.

Definition diagnostics : list message :=
  [Text "Path does not exist."; Text "Cannot start observer"].

(** An attached session is not closed and was sent events only; a closed
    one is not attached and was sent one diagnostic and nothing else; a
    session that is neither was sent nothing. *)
Definition session_ok (sk : ArgusWebSocketHandler) : Prop :=
  if started_observer sk then closed sk = false ∧ Forall is_event (written sk)
  else if closed sk then ∃ m, m ∈ diagnostics ∧ written sk = [m]
  else written sk = [].

(** ** The life of an observer *)

(** [ob'] is a later state of the observer [ob]: the same watches, and
    the same state unless it was running and is stopped. *)
Definition later_state (ob ob' : Observer) : Prop :=
  watches ob' = watches ob
  ∧ (state ob' = state ob ∨ (state ob = Running ∧ state ob' = Stopped)).

(** The options of a handler are some of the eight tokens, each once,
    and at least one. *)
Definition options_valid (l : list string) : Prop :=
  l ≠ [] ∧ NoDup l ∧ ∀ x, x ∈ l → x ∈ default_options.

(** * Option resolution *)

Lemma py_set_elements (X : gset string) : py_set (elements X) = X.
Proof. apply list_to_set_elements_L. Qed.

Lemma define_options_resolve (enable disable : list string) :
  py_set (define_options enable disable) = resolve enable disable.
Proof.
  unfold define_options, resolve.
  destruct (bool_decide_reflect (disable = enable ∧ enable = [])) as [[-> ->]|_].
  - rewrite bool_decide_eq_false_2 by (apply not_elem_of_nil).
    unfold py_set at 3. simpl. set_solver.
  - destruct (bool_decide ("all" ∈ disable)); apply py_set_elements.
Qed.

Lemma define_options_NoDup (enable disable : list string) :
  NoDup (define_options enable disable).
Proof.
  unfold define_options. repeat case_bool_decide; try apply NoDup_elements.
  unfold default_options. apply (bool_decide_unpack _). vm_compute. exact I.
Qed.

(** C2.  [define_options] follows the resolution law: no arguments give
    the eight default tokens; with [all] among [disable] the result is
    [enable] cut down to the defaults; otherwise it is the defaults less
    [disable], whatever [enable] is.  The four instances of the
    specification are included. *)
Theorem define_options_law :
  define_options [] [] = default_options
  ∧ length default_options = 8
  ∧ (∀ enable disable,
       NoDup (define_options enable disable)
       ∧ py_set (define_options enable disable) = resolve enable disable)
  ∧ (∀ enable disable, "all" ∈ disable →
       py_set (define_options enable disable)
       = py_set enable ∩ py_set default_options)
  ∧ (∀ enable disable, "all" ∉ disable →
       py_set (define_options enable disable)
       = py_set default_options ∖ py_set disable)
  ∧ define_options ["CRfile"] ["all"] = ["CRfile"]
  ∧ py_set (define_options [] ["CRfile"]) = py_set default_options ∖ {["CRfile"]}
  ∧ length (define_options [] ["CRfile"]) = 7
  ∧ py_set (define_options ["CRfile"] ["CRdir"]) = py_set default_options ∖ {["CRdir"]}
  ∧ length (define_options ["CRfile"] ["CRdir"]) = 7.
Proof.
  split; [reflexivity|]. split; [reflexivity|].
  split; [intros; split; [apply define_options_NoDup|apply define_options_resolve]|].
  split.
  { intros e d H. rewrite define_options_resolve. unfold resolve.
    by rewrite bool_decide_eq_true_2. }
  split.
  { intros e d H. rewrite define_options_resolve. unfold resolve.
    by rewrite bool_decide_eq_false_2. }
  split; [by vm_compute|].
  split; [rewrite define_options_resolve; unfold resolve; simpl; set_solver|].
  split; [by vm_compute|].
  split; [rewrite define_options_resolve; unfold resolve; simpl; set_solver|].
  by vm_compute.
Qed.

Lemma define_options_law_witness :
  ("all" ∈ ["x"; "all"]) ∧ ("all" ∉ ["CRdir"])
  ∧ py_set (define_options ["CRfile"; "bogus"] ["x"; "all"])
    = py_set ["CRfile"; "bogus"] ∩ py_set default_options
  ∧ py_set (define_options ["CRfile"] ["CRdir"])
    = py_set default_options ∖ py_set ["CRdir"].
Proof.
  assert (H1 : "all" ∈ ["x"; "all"]) by (apply (bool_decide_unpack _); vm_compute; exact I).
  assert (H2 : "all" ∉ ["CRdir"]) by (apply (bool_decide_unpack _); vm_compute; exact I).
  split; [exact H1|]. split; [exact H2|].
  split.
  - exact (proj1 (proj2 (proj2 (proj2 define_options_law))) _ _ H1).
  - exact (proj1 (proj2 (proj2 (proj2 (proj2 define_options_law)))) _ _ H2).
Defined.

(** * The monad, step by step *)

Ltac py_unfold :=
  unfold write_msg, write_message, close, add_socket, remove_socket, schedule,
    start, stop, Observer_new, Argus_new, update_socket, update_handler,
    update_observer, get_socket, get_handler, get_observer, or_raise,
    try_except, modify, get, raise, bind, ret in *.

Lemma bind_returned {A B} (m : Py A) (k : A → Py B) w w' a :
  m w = (w', Returned a) → bind m k w = k a w'.
Proof. unfold bind. by intros ->. Qed.

Lemma bind_raised {A B} (m : Py A) (k : A → Py B) w w' e :
  m w = (w', Raised e) → bind m k w = (w', Raised e).
Proof. unfold bind. by intros ->. Qed.

(** * The event filter *)

Lemma dispatch_filter (w : World) (self : nat) (a : Argus) (ev : raw_event) :
  handlers w !! self = Some a →
  (token_of ev ∈ options a →
     ∃ d, dispatch self ev w = write_msg self (dumps d) w
          ∧ dom d = fields_of ev
          ∧ d !! "event_type" = Some (JString (event_type_of ev))
          ∧ d !! "is_directory" = Some (JBool (is_directory_of ev))
          ∧ d !! "src_path" = Some (JString (Re.sub (root a) "" (src_path_of ev)))
          ∧ d !! "dest_path" = (λ p, JString (Re.sub (root a) "" p)) <$> dest_path_of ev)
  ∧ (token_of ev ∉ options a → dispatch self ev w = (w, Returned ())).
Proof.
  intros Ha. split.
  - intros Htok.
    destruct ev as [[dir src]|[dir src]|[dir src]|[dir src dst]]; simpl in *;
      (eexists; split;
       [ unfold on_created, on_modified, on_deleted, on_moved;
         erewrite bind_returned by (unfold get_handler, get, or_raise, bind, ret; rewrite Ha; reflexivity);
         simpl; destruct dir; simpl in *;
         rewrite (bool_decide_eq_true_2 _ Htok); simpl; reflexivity
       | split; [ simpl; rewrite !dom_insert_L, dom_empty_L; set_solver |] ;
         repeat split; reflexivity ]).
  - intros Htok.
    destruct ev as [[dir src]|[dir src]|[dir src]|[dir src dst]]; simpl in *;
      unfold on_created, on_modified, on_deleted, on_moved;
      (erewrite bind_returned by (unfold get_handler, get, or_raise, bind, ret; rewrite Ha; reflexivity));
      simpl; destruct dir; simpl in *;
      rewrite (bool_decide_eq_false_2 _ Htok); reflexivity.
Qed.


(** * Fan-out *)

Lemma with_sockets_id w : with_sockets (sockets w) w = w.
Proof. by destruct w. Qed.

Lemma write_message_open (s : nat) (m : message) (w : World) sk :
  sockets w !! s = Some sk → ws_connection sk = true →
  write_message s m w = (with_sockets (alter (push m) s (sockets w)) w, Returned ()).
Proof.
  intros Hs Hc. py_unfold. rewrite Hs. simpl. rewrite Hc, Hs. simpl.
  do 2 f_equal. apply map_eq. intros i. rewrite lookup_alter, lookup_insert.
  case_decide; subst; by rewrite ?Hs.
Qed.

Lemma write_message_gone (s : nat) (m : message) (w : World) sk :
  sockets w !! s = Some sk → ws_connection sk = false →
  write_message s m w = (w, Raised WebSocketClosedError).
Proof. intros Hs Hc. py_unfold. rewrite Hs. simpl. by rewrite Hc. Qed.

Lemma transport_open_alter_push m s' st s :
  transport_open st s → transport_open (alter (push m) s' st) s.
Proof.
  intros (sk & Hs & Hc). unfold transport_open. rewrite lookup_alter.
  case_decide; subst; rewrite Hs; simpl; eauto.
Qed.

(** Every transport open: the message reaches every socket of the list. *)
Lemma for_each_write_open (m : message) (l : list nat) (w : World) :
  Forall (transport_open (sockets w)) l →
  for_each l (λ s, write_message s m) w
  = (with_sockets (deliver m l (sockets w)) w, Returned ()).
Proof.
  revert w. induction l as [|s l IH]; intros w Hl.
  - simpl. by rewrite with_sockets_id.
  - apply Forall_cons in Hl as [(sk & Hs & Hc) Hl]. simpl.
    erewrite bind_returned by (by eapply write_message_open).
    rewrite IH; [done|].
    simpl. eapply Forall_impl; [exact Hl|]. intros x. apply transport_open_alter_push.
Qed.

(** A closed transport in the list: the sockets before it are written,
    the exception leaves the loop, the sockets after it are not reached. *)
Lemma for_each_write_gone (m : message) (pre post : list nat) (s : nat) (w : World) sk :
  Forall (transport_open (sockets w)) pre →
  s ∉ pre →
  sockets w !! s = Some sk → ws_connection sk = false →
  for_each (pre ++ s :: post) (λ s, write_message s m) w
  = (with_sockets (deliver m pre (sockets w)) w, Raised WebSocketClosedError).
Proof.
  revert w. induction pre as [|x pre IH]; intros w Hpre Hnin Hs Hc.
  - simpl. erewrite bind_raised by (by eapply write_message_gone).
    by rewrite with_sockets_id.
  - apply Forall_cons in Hpre as [(xk & Hx & Hxc) Hpre].
    apply not_elem_of_cons in Hnin as [Hne Hnin]. simpl.
    erewrite bind_returned by (by eapply write_message_open).
    rewrite (IH _); simpl; [done| |done| |done].
    + eapply Forall_impl; [exact Hpre|]. intros y. apply transport_open_alter_push.
    + rewrite lookup_alter_ne; [done|congruence].
Qed.

Lemma deliver_lookup_notin m l st s :
  s ∉ l → deliver m l st !! s = st !! s.
Proof.
  revert st. induction l as [|x l IH]; intros st Hnin; [done|].
  apply not_elem_of_cons in Hnin as [Hne Hnin]. simpl.
  rewrite IH by done. by rewrite lookup_alter_ne.
Qed.

Lemma deliver_lookup_in m l st s :
  NoDup l → s ∈ l → deliver m l st !! s = push m <$> st !! s.
Proof.
  revert st. induction l as [|x l IH]; intros st Hnd Hin; [by apply elem_of_nil in Hin|].
  apply NoDup_cons in Hnd as [Hx Hnd]. simpl.
  apply elem_of_cons in Hin as [->|Hin].
  - rewrite deliver_lookup_notin by done. by rewrite lookup_alter_eq.
  - rewrite IH by done. rewrite lookup_alter_ne; [done|]. intros ->. done.
Qed.

Lemma write_msg_open w h a m :
  handlers w !! h = Some a →
  Forall (transport_open (sockets w)) (websockets a) →
  write_msg h m w = (with_sockets (deliver m (websockets a) (sockets w)) w, Returned ()).
Proof.
  intros Ha Hopen. unfold write_msg.
  erewrite bind_returned by (unfold get_handler, get, or_raise, bind, ret; rewrite Ha; reflexivity).
  by apply for_each_write_open.
Qed.



(** C5, as the code has it.  When the write to one subscriber of the list
    fails, [WebSocketClosedError] leaves the loop of [write_msg]: the
    subscribers before it have the message, the failing one and those
    after it are as before.  The fan-out touches neither the registry
    tables nor any handler or observer, so the watch is not torn down. *)
Theorem write_msg_failure (w : World) (self : nat) (a : Argus) (m : message)
    (pre post : list nat) (s : nat) (sk : ArgusWebSocketHandler) :
  handlers w !! self = Some a →
  websockets a = (pre ++ s :: post)%list →
  NoDup (websockets a) →
  Forall (transport_open (sockets w)) pre →
  sockets w !! s = Some sk → ws_connection sk = false →
  ∃ w', write_msg self m w = (w', Raised WebSocketClosedError)
        ∧ active_handlers w' = active_handlers w
        ∧ active_observers w' = active_observers w
        ∧ handlers w' = handlers w
        ∧ observers w' = observers w
        ∧ (∀ x, x ∈ pre → sockets w' !! x = push m <$> sockets w !! x)
        ∧ sockets w' !! s = sockets w !! s
        ∧ (∀ x, x ∈ post → sockets w' !! x = sockets w !! x).
Proof.
  intros Ha Hws Hnd Hpre Hs Hc. rewrite Hws in Hnd.
  apply NoDup_app in Hnd as (Hndpre & Hdisj & Hndpost).
  assert (Hspre : s ∉ pre) by (intros Hin; apply (Hdisj _ Hin); left).
  exists (with_sockets (deliver m pre (sockets w)) w).
  split.
  { unfold write_msg.
    erewrite bind_returned by (unfold get_handler, get, or_raise, bind, ret; rewrite Ha; reflexivity).
    rewrite Hws. by eapply for_each_write_gone. }
  repeat split; simpl.
  - intros x Hx. by apply deliver_lookup_in.
  - by apply deliver_lookup_notin.
  - intros x Hx. apply deliver_lookup_notin. intros Hin. apply (Hdisj _ Hin). by right.
Qed.

Lemma write_msg_failure_witness :
  ∃ w', write_msg 0 (Text "m") first_lost = (w', Raised WebSocketClosedError)
        ∧ active_handlers w' = active_handlers first_lost
        ∧ active_observers w' = active_observers first_lost
        ∧ handlers w' = handlers first_lost
        ∧ observers w' = observers first_lost
        ∧ (∀ x, x ∈ [] → sockets w' !! x = push (Text "m") <$> sockets first_lost !! x)
        ∧ sockets w' !! 0 = sockets first_lost !! 0
        ∧ (∀ x, x ∈ [1] → sockets w' !! x = sockets first_lost !! x).
Proof.
  assert (Ha : ∃ a, handlers first_lost !! 0 = Some a ∧ websockets a = [0; 1]).
  { vm_compute. eexists; split; reflexivity. }
  assert (Hs : ∃ sk, sockets first_lost !! 0 = Some sk ∧ ws_connection sk = false).
  { vm_compute. eexists; split; reflexivity. }
  destruct Ha as (a & Ha & Hws), Hs as (sk & Hs & Hc).
  apply (write_msg_failure first_lost 0 a (Text "m") [] [1] 0 sk Ha Hws).
  - rewrite Hws. apply (bool_decide_unpack _). by vm_compute.
  - constructor.
  - exact Hs.
  - exact Hc.
Defined.

(** C5 as stated fails: with two subscribers of which the first has lost
    its transport, a forwarded event never reaches the second. *)
Lemma fanout_not_isolated : ¬ fanout_isolates_failures first_lost 0 created_x.
Proof.
  intros H.
  assert (Ha : ∃ a, handlers first_lost !! 0 = Some a ∧ options a = default_options).
  { vm_compute. eexists; split; reflexivity. }
  destruct Ha as (a & Ha & Hopt).
  specialize (H a 1 Ha).
  rewrite Hopt in H.
  specialize (H ltac:(apply (bool_decide_unpack _); by vm_compute) ltac:(by vm_compute)).
  vm_compute in H. discriminate.
Qed.

(** * Opening a connection *)

Section Opening.

Variable ARGUS_ROOT : string.

Ltac py_open :=
  unfold connect, open, initiation_handler, ArgusWebSocketHandler_new;
  py_unfold; simpl;
  repeat (rewrite ?lookup_insert_eq, ?insert_insert_eq; simpl).

Lemma connect_empty_options (w : World) (os : OS) (kw : gmap string string)
    (request : gmap string (list string)) (path_arg : string) :
  kw !! "path" = Some path_arg →
  os_path_exists os (path_join ARGUS_ROOT path_arg) = true →
  path_join ARGUS_ROOT path_arg ∉ dom (active_observers w) →
  define_options (default [] (request !! "enable"))
                 (default [] (request !! "disable")) = [] →
  connect ARGUS_ROOT os kw request w
  = (with_sockets
       (<[fresh (dom (sockets w)) :=
            {| started_observer := false; observer := None;
               path := Some (path_join ARGUS_ROOT path_arg);
               kwargs := kw; arguments := request; callback := Some true;
               ws_connection := true; closed := false; written := [] |}]>
          (sockets w)) w,
     Returned (fresh (dom (sockets w)))).
Proof.
  intros Hkw Hex Hnin Hopt. py_open. rewrite Hkw. simpl.
  repeat (rewrite ?lookup_insert_eq, ?insert_insert_eq; simpl).
  rewrite Hex. simpl.
  rewrite (bool_decide_eq_false_2 _ Hnin).
  unfold get_arguments. simpl. rewrite Hopt. simpl. reflexivity.
Qed.


(** The URL pattern captured no [path]: [os.path.join] raises. *)
Lemma connect_no_path (w : World) (os : OS) (kw : gmap string string)
    (request : gmap string (list string)) :
  kw !! "path" = None →
  connect ARGUS_ROOT os kw request w
  = (with_sockets (<[fresh (dom (sockets w)) := opened kw request None]> (sockets w)) w,
     Raised AttributeError).
Proof. intros Hkw. py_open. rewrite Hkw. reflexivity. Qed.

Lemma connect_path_missing (w : World) (os : OS) (kw : gmap string string)
    (request : gmap string (list string)) (path_arg : string) :
  kw !! "path" = Some path_arg →
  os_path_exists os (path_join ARGUS_ROOT path_arg) = false →
  connect ARGUS_ROOT os kw request w
  = (with_sockets
       (<[fresh (dom (sockets w)) :=
            set_closed true (set_ws_connection false
              (push (Text "Path does not exist.")
                 (opened kw request (Some (path_join ARGUS_ROOT path_arg)))))]>
          (sockets w)) w,
     Returned (fresh (dom (sockets w)))).
Proof.
  intros Hkw Hex. py_open. rewrite Hkw. simpl.
  repeat (rewrite ?lookup_insert_eq, ?insert_insert_eq; simpl).
  rewrite Hex. simpl.
  repeat (rewrite ?lookup_insert_eq, ?insert_insert_eq; simpl). reflexivity.
Qed.

Lemma connect_start_failed (w : World) (os : OS) (kw : gmap string string)
    (request : gmap string (list string)) (path_arg : string) :
  kw !! "path" = Some path_arg →
  os_path_exists os (path_join ARGUS_ROOT path_arg) = true →
  path_join ARGUS_ROOT path_arg ∉ dom (active_observers w) →
  define_options (default [] (request !! "enable"))
                 (default [] (request !! "disable")) ≠ [] →
  can_start os = false →
  let p := path_join ARGUS_ROOT path_arg in
  let s := fresh (dom (sockets w)) in
  let h := fresh (dom (handlers w)) in
  let o := fresh (dom (observers w)) in
  connect ARGUS_ROOT os kw request w
  = ({| active_handlers := active_handlers w;
        active_observers := active_observers w;
        handlers :=
          <[h := {| websockets := [s]; root := p;
                    options := define_options (default [] (request !! "enable"))
                                 (default [] (request !! "disable")) |}]> (handlers w);
        observers :=
          <[o := {| watches := [(h, p, true)]; state := Unstarted |}]> (observers w);
        sockets :=
          <[s := set_closed true (set_ws_connection false
                   (push (Text "Cannot start observer")
                      (set_observer (Some o) (opened kw request (Some p)))))]>
            (sockets w) |},
     Returned s).
Proof.
  intros Hkw Hex Hnin Hopt Hstart. cbv zeta. py_open. rewrite Hkw. simpl.
  repeat (rewrite ?lookup_insert_eq, ?insert_insert_eq; simpl).
  rewrite Hex. simpl.
  rewrite (bool_decide_eq_false_2 _ Hnin).
  unfold get_arguments. simpl. rewrite (bool_decide_eq_false_2 _ Hopt). simpl.
  repeat (rewrite ?lookup_insert_eq, ?insert_insert_eq; simpl).
  rewrite Hstart. simpl.
  repeat (rewrite ?lookup_insert_eq, ?insert_insert_eq; simpl). reflexivity.
Qed.

Lemma connect_create (w : World) (os : OS) (kw : gmap string string)
    (request : gmap string (list string)) (path_arg : string) :
  kw !! "path" = Some path_arg →
  os_path_exists os (path_join ARGUS_ROOT path_arg) = true →
  path_join ARGUS_ROOT path_arg ∉ dom (active_observers w) →
  define_options (default [] (request !! "enable"))
                 (default [] (request !! "disable")) ≠ [] →
  can_start os = true →
  let p := path_join ARGUS_ROOT path_arg in
  let s := fresh (dom (sockets w)) in
  let h := fresh (dom (handlers w)) in
  let o := fresh (dom (observers w)) in
  connect ARGUS_ROOT os kw request w
  = ({| active_handlers := <[p := h]> (active_handlers w);
        active_observers := <[p := o]> (active_observers w);
        handlers :=
          <[h := {| websockets := [s]; root := p;
                    options := define_options (default [] (request !! "enable"))
                                 (default [] (request !! "disable")) |}]> (handlers w);
        observers :=
          <[o := {| watches := [(h, p, true)]; state := Running |}]> (observers w);
        sockets :=
          <[s := set_started_observer true
                   (set_observer (Some o) (opened kw request (Some p)))]>
            (sockets w) |},
     Returned s).
Proof.
  intros Hkw Hex Hnin Hopt Hstart. cbv zeta. py_open. rewrite Hkw. simpl.
  repeat (rewrite ?lookup_insert_eq, ?insert_insert_eq; simpl).
  rewrite Hex. simpl.
  rewrite (bool_decide_eq_false_2 _ Hnin).
  unfold get_arguments. simpl. rewrite (bool_decide_eq_false_2 _ Hopt). simpl.
  repeat (rewrite ?lookup_insert_eq, ?insert_insert_eq; simpl).
  rewrite Hstart. simpl.
  repeat (rewrite ?lookup_insert_eq, ?insert_insert_eq; simpl). reflexivity.
Qed.

Lemma connect_attach (w : World) (os : OS) (kw : gmap string string)
    (request : gmap string (list string)) (path_arg : string)
    (h o : nat) (a : Argus) :
  kw !! "path" = Some path_arg →
  os_path_exists os (path_join ARGUS_ROOT path_arg) = true →
  active_observers w !! path_join ARGUS_ROOT path_arg = Some o →
  active_handlers w !! path_join ARGUS_ROOT path_arg = Some h →
  handlers w !! h = Some a →
  let p := path_join ARGUS_ROOT path_arg in
  let s := fresh (dom (sockets w)) in
  connect ARGUS_ROOT os kw request w
  = ({| active_handlers := active_handlers w;
        active_observers := active_observers w;
        handlers := <[h := set_websockets (websockets a ++ [s]) a]> (handlers w);
        observers := observers w;
        sockets :=
          <[s := set_started_observer true
                   (set_observer (Some o) (opened kw request (Some p)))]>
            (sockets w) |},
     Returned s).
Proof.
  intros Hkw Hex Ho Hh Ha. cbv zeta. py_open. rewrite Hkw. simpl.
  repeat (rewrite ?lookup_insert_eq, ?insert_insert_eq; simpl).
  rewrite Hex. simpl.
  rewrite bool_decide_eq_true_2 by (apply elem_of_dom; eauto).
  rewrite Hh. simpl. rewrite Ha. simpl. rewrite Ho. simpl.
  repeat (rewrite ?lookup_insert_eq, ?insert_insert_eq; simpl). reflexivity.
Qed.

End Opening.

(** * Closing a connection *)

Section Closing.

Variable ARGUS_ROOT : string.

Ltac py_close :=
  unfold on_close, del_active_observers, del_active_handlers;
  py_unfold; simpl.

Ltac py_store :=
  repeat (rewrite ?lookup_insert_eq, ?insert_insert_eq; simpl).

(** The session was never attached: only its timer is stopped. *)
Lemma on_close_unattached (w : World) (s : nat) (sk : ArgusWebSocketHandler) c :
  sockets w !! s = Some sk → callback sk = Some c →
  started_observer sk = false →
  on_close s w
  = (with_sockets (<[s := set_callback (Some false) sk]> (sockets w)) w, Returned ()).
Proof.
  intros Hs Hc Hst. py_close. rewrite Hs. simpl. rewrite Hc, Hs. simpl.
  by rewrite Hst.
Qed.

(** Other subscribers remain: the socket leaves the list, nothing else
    changes. *)
Lemma on_close_others (w : World) (s h : nat) (sk : ArgusWebSocketHandler)
    (a : Argus) c p :
  sockets w !! s = Some sk → callback sk = Some c →
  started_observer sk = true → path sk = Some p →
  active_handlers w !! p = Some h → handlers w !! h = Some a →
  s ∈ websockets a →
  list_remove_first s (websockets a) ≠ [] →
  on_close s w
  = ({| active_handlers := active_handlers w;
        active_observers := active_observers w;
        handlers :=
          <[h := set_websockets (list_remove_first s (websockets a)) a]> (handlers w);
        observers := observers w;
        sockets := <[s := set_callback (Some false) sk]> (sockets w) |},
     Returned ()).
Proof.
  intros Hs Hc Hst Hp Hh Ha Hin Hne. py_close.
  rewrite Hs. simpl. rewrite Hc, Hs. simpl. rewrite Hst, Hp. simpl.
  rewrite Hh. simpl. rewrite Ha. simpl.
  rewrite (bool_decide_eq_true_2 _ Hin). simpl. rewrite ?Ha. simpl. py_store.
  by rewrite (bool_decide_eq_false_2 _ Hne).
Qed.

(** The last subscriber leaves: the observer is stopped and the path
    goes from both tables. *)
Lemma on_close_last (w : World) (s h o : nat) (sk : ArgusWebSocketHandler)
    (a : Argus) (ob : Observer) c p :
  sockets w !! s = Some sk → callback sk = Some c →
  started_observer sk = true → path sk = Some p →
  active_handlers w !! p = Some h → handlers w !! h = Some a →
  s ∈ websockets a →
  list_remove_first s (websockets a) = [] →
  observer sk = Some o → observers w !! o = Some ob →
  p ∈ dom (active_observers w) →
  on_close s w
  = ({| active_handlers := delete p (active_handlers w);
        active_observers := delete p (active_observers w);
        handlers := <[h := set_websockets [] a]> (handlers w);
        observers := <[o := set_state Stopped ob]> (observers w);
        sockets := <[s := set_callback (Some false) sk]> (sockets w) |},
     Returned ()).
Proof.
  intros Hs Hc Hst Hp Hh Ha Hin Hemp Ho Hob Hdom. py_close.
  rewrite Hs. simpl. rewrite Hc, Hs. simpl. rewrite Hst, Hp. simpl.
  rewrite Hh. simpl. rewrite Ha. simpl.
  rewrite (bool_decide_eq_true_2 _ Hin). simpl. rewrite ?Ha. simpl. py_store.
  rewrite Hemp. simpl. rewrite Ho. simpl. rewrite Hob. simpl.
  rewrite (bool_decide_eq_true_2 _ Hdom). simpl.
  rewrite bool_decide_eq_true_2 by (apply elem_of_dom; eauto). reflexivity.
Qed.

End Closing.

(** * Well-formedness is invariant *)

Lemma wf_initial : wf initial.
Proof.
  constructor; simpl; try done; intros *; rewrite ?lookup_empty; try done.
Qed.

Lemma same_session_refl sk : same_session sk sk.
Proof. by repeat split. Qed.

Lemma transport_only_refl w : transport_only w w.
Proof.
  repeat split; try done. intros s. destruct (sockets w !! s); constructor.
  apply same_session_refl.
Qed.

Lemma transport_only_trans w1 w2 w3 :
  transport_only w1 w2 → transport_only w2 w3 → transport_only w1 w3.
Proof.
  intros (H1 & H2 & H3 & H4 & H5) (G1 & G2 & G3 & G4 & G5).
  repeat split; try congruence.
  intros s. specialize (H5 s). specialize (G5 s).
  destruct H5 as [x y Hxy|]; inversion G5 as [y' z Hyz|]; subst; constructor.
  destruct Hxy as (?&?&?&?), Hyz as (?&?&?&?). repeat split; congruence.
Qed.

Lemma wf_transport_only w w' : transport_only w w' → wf w → wf w'.
Proof.
  intros (H1 & H2 & H3 & H4 & H5) Hwf.
  assert (Hback : ∀ s sk', sockets w' !! s = Some sk' →
            ∃ sk, sockets w !! s = Some sk ∧ same_session sk sk').
  { intros s sk' Hs. specialize (H5 s). rewrite Hs in H5.
    inversion H5; subst; eauto. }
  assert (Hforth : ∀ s sk, sockets w !! s = Some sk →
            ∃ sk', sockets w' !! s = Some sk' ∧ same_session sk sk').
  { intros s sk Hs. specialize (H5 s). rewrite Hs in H5.
    inversion H5; subst; eauto. }
  constructor; rewrite ?H1, ?H2, ?H3, ?H4.
  - apply Hwf.
  - apply Hwf.
  - apply Hwf.
  - apply Hwf.
  - intros s sk' Hs Hst. destruct (Hback _ _ Hs) as (sk & Hsk & E1 & E2 & E3 & E4).
    rewrite E1 in Hst. rewrite E2, E3. by eapply wf_attached.
  - intros p h a s Hh Ha Hin.
    destruct (wf_subscriber _ Hwf _ _ _ _ Hh Ha Hin) as (sk & Hs & Hst & Hp).
    destruct (Hforth _ _ Hs) as (sk' & Hsk' & E1 & E2 & E3 & E4).
    exists sk'. repeat split; congruence.
  - intros s sk' Hs. destruct (Hback _ _ Hs) as (sk & Hsk & E1 & E2 & E3 & E4).
    rewrite E4. by eapply wf_callback.
Qed.

Lemma frames_ret {A} (a : A) : frames (ret a).
Proof. intros w. apply transport_only_refl. Qed.

Lemma frames_raise {A} e : frames (@raise A e).
Proof. intros w. apply transport_only_refl. Qed.

Lemma frames_bind {A B} (m : Py A) (k : A → Py B) :
  frames m → (∀ a, frames (k a)) → frames (bind m k).
Proof.
  intros Hm Hk w. unfold bind. specialize (Hm w).
  destruct (m w) as [w' [a|e]]; simpl in *; [|done].
  eapply transport_only_trans; [exact Hm|apply Hk].
Qed.

Lemma frames_for_each {A} (l : list A) (body : A → Py unit) :
  (∀ x, frames (body x)) → frames (for_each l body).
Proof.
  intros Hb. induction l as [|x l IH]; simpl.
  - apply frames_ret.
  - apply frames_bind; [apply Hb|]. intros _. apply IH.
Qed.

Lemma frames_get_handler h : frames (get_handler h).
Proof. intros w. py_unfold. destruct (handlers w !! h); apply transport_only_refl. Qed.

Lemma frames_get_observer o : frames (get_observer o).
Proof. intros w. py_unfold. destruct (observers w !! o); apply transport_only_refl. Qed.

Lemma frames_update_socket s f :
  (∀ sk, same_session sk (f sk)) → frames (update_socket s f).
Proof.
  intros Hf w. py_unfold. destruct (sockets w !! s) as [sk|] eqn:Hs; simpl.
  - repeat split; try done. intros s'. simpl. rewrite lookup_insert. case_decide; subst.
    + rewrite Hs. constructor. apply Hf.
    + destruct (sockets w !! s'); constructor. apply same_session_refl.
  - apply transport_only_refl.
Qed.

Lemma frames_write_message s m : frames (write_message s m).
Proof.
  unfold write_message. apply frames_bind.
  - intros w. py_unfold. destruct (sockets w !! s); apply transport_only_refl.
  - intros sk. destruct (ws_connection sk).
    + apply frames_update_socket. intros x. by repeat split.
    + apply frames_raise.
Qed.

Lemma frames_write_msg h m : frames (write_msg h m).
Proof.
  unfold write_msg. apply frames_bind; [apply frames_get_handler|].
  intros a. apply frames_for_each. intros s. apply frames_write_message.
Qed.

Lemma frames_dispatch h ev : frames (dispatch h ev).
Proof.
  destruct ev; simpl; unfold on_created, on_modified, on_deleted, on_moved;
    (apply frames_bind; [apply frames_get_handler|]); intros a; simpl;
    match goal with |- frames (if ?b then _ else _) => destruct b end;
    auto using frames_write_msg, frames_ret.
Qed.

Lemma frames_emit o ev : frames (emit o ev).
Proof.
  unfold emit. apply frames_bind; [apply frames_get_observer|].
  intros ob. destruct (state ob); try apply frames_ret.
  apply frames_for_each. intros wt. apply frames_dispatch.
Qed.

Lemma wf_handler_inj w p p' h :
  wf w → active_handlers w !! p = Some h → active_handlers w !! p' = Some h → p = p'.
Proof.
  intros Hwf Hp Hp'.
  destruct (wf_handler _ Hwf _ _ Hp) as (a & Ha & Hr & _).
  destruct (wf_handler _ Hwf _ _ Hp') as (a' & Ha' & Hr' & _).
  congruence.
Qed.

(** A new socket that is attached to nothing. *)
Lemma wf_new_socket w s sk :
  wf w → sockets w !! s = None →
  started_observer sk = false → is_Some (callback sk) →
  wf (with_sockets (<[s := sk]> (sockets w)) w).
Proof.
  intros Hwf Hs Hst Hcb. constructor; simpl; try apply Hwf.
  - intros s' sk' Hs' Hst'. rewrite lookup_insert in Hs'. case_decide; simplify_eq.
    + congruence.
    + by eapply wf_attached.
  - intros p h a s' Hh Ha Hin.
    destruct (wf_subscriber _ Hwf _ _ _ _ Hh Ha Hin) as (sk' & Hs' & ?).
    exists sk'. rewrite lookup_insert_ne; [done|congruence].
  - intros s' sk' Hs'. rewrite lookup_insert in Hs'. case_decide; simplify_eq; [done|].
    by eapply wf_callback.
Qed.

(** A new handler that no table names. *)
Lemma wf_new_handler w h a :
  wf w → handlers w !! h = None →
  wf (with_handlers (<[h := a]> (handlers w)) w).
Proof.
  intros Hwf Hh.
  assert (Hold : ∀ p h', active_handlers w !! p = Some h' → h' ≠ h).
  { intros p h' Hp ->. destruct (wf_handler _ Hwf _ _ Hp) as (? & ? & _). congruence. }
  constructor; simpl; try apply Hwf.
  - intros p h' Hp. rewrite lookup_insert_ne by (symmetry; eauto). by eapply wf_handler.
  - intros s sk Hs Hst.
    destruct (wf_attached _ Hwf _ _ Hs Hst) as (p & h' & a' & ? & Hp & ? & ?).
    exists p, h', a'. rewrite lookup_insert_ne by (symmetry; eauto). done.
  - intros p h' a' s Hp Ha' Hin. rewrite lookup_insert_ne in Ha' by (symmetry; eauto).
    by eapply wf_subscriber.
Qed.

(** A new observer that is not running. *)
Lemma wf_new_observer w o ob :
  wf w → observers w !! o = None → state ob ≠ Running →
  wf (with_observers (<[o := ob]> (observers w)) w).
Proof.
  intros Hwf Ho Hst. constructor; simpl; try apply Hwf.
  - intros p o' Hp. destruct (wf_observer _ Hwf _ _ Hp) as (h & Hh & Hob).
    exists h. split; [done|]. rewrite lookup_insert_ne; [done|congruence].
  - intros o' ob' Hob' Hrun. rewrite lookup_insert in Hob'. case_decide; simplify_eq.
    by eapply wf_running.
Qed.

(** The transport of a socket changes. *)
Lemma wf_update_transport w s f :
  (∀ sk, same_session sk (f sk)) → wf w → wf (update_socket s f w).1.
Proof. intros Hf. apply wf_transport_only. by apply frames_update_socket. Qed.

(** A first subscriber: fresh handler, observer and socket, registered
    under a path that was not watched. *)
Lemma wf_create w p h o s opts sk :
  wf w → active_observers w !! p = None →
  handlers w !! h = None → observers w !! o = None → sockets w !! s = None →
  opts ≠ [] →
  started_observer sk = true → path sk = Some p → observer sk = Some o →
  is_Some (callback sk) →
  wf {| active_handlers := <[p := h]> (active_handlers w);
        active_observers := <[p := o]> (active_observers w);
        handlers := <[h := {| websockets := [s]; root := p; options := opts |}]> (handlers w);
        observers := <[o := {| watches := [(h, p, true)]; state := Running |}]> (observers w);
        sockets := <[s := sk]> (sockets w) |}.
Proof.
  intros Hwf Hao Hh Ho Hs Hopts Hst Hpath Hobs Hcb.
  assert (Hah : active_handlers w !! p = None).
  { apply not_elem_of_dom. rewrite (wf_tables _ Hwf). by apply not_elem_of_dom. }
  assert (Hold : ∀ p' h', active_handlers w !! p' = Some h' → h' ≠ h ∧ p' ≠ p).
  { intros p' h' Hp'. split; intros ->; [|congruence].
    destruct (wf_handler _ Hwf _ _ Hp') as (? & ? & _). congruence. }
  assert (Holdo : ∀ p' o', active_observers w !! p' = Some o' → o' ≠ o ∧ p' ≠ p).
  { intros p' o' Hp'. split; intros ->; [|congruence].
    destruct (wf_observer _ Hwf _ _ Hp') as (? & ? & ?). congruence. }
  constructor; simpl.
  - rewrite !dom_insert_L. by rewrite (wf_tables _ Hwf).
  - intros p' h' Hp'. rewrite lookup_insert in Hp'. case_decide; simplify_eq.
    + eexists. rewrite lookup_insert_eq. split; [done|]. simpl.
      repeat split; [done| |done]. apply NoDup_singleton.
    + destruct (Hold _ _ Hp') as [? ?]. rewrite lookup_insert_ne by done.
      by eapply wf_handler.
  - intros p' o' Hp'. rewrite lookup_insert in Hp'. case_decide; simplify_eq.
    + exists h. by rewrite !lookup_insert_eq.
    + destruct (Holdo _ _ Hp') as [? ?].
      destruct (wf_observer _ Hwf _ _ Hp') as (h' & Hh' & Hob').
      exists h'. rewrite !lookup_insert_ne by done. done.
  - intros o' ob' Hob' Hrun. rewrite lookup_insert in Hob'. case_decide; simplify_eq.
    + exists h, p. by rewrite lookup_insert_eq.
    + destruct (wf_running _ Hwf _ _ Hob' Hrun) as (h' & p' & Hw & Hp').
      exists h', p'. split; [done|]. rewrite lookup_insert_ne; [done|].
      intros ->. congruence.
  - intros s' sk' Hs' Hst'. rewrite lookup_insert in Hs'. case_decide; simplify_eq.
    + eexists p, h, _. rewrite !lookup_insert_eq. repeat split; try done.
      simpl. apply list_elem_of_singleton. done.
    + destruct (wf_attached _ Hwf _ _ Hs' Hst') as (p' & h' & a' & ? & Hp' & ? & ? & ?).
      destruct (Hold _ _ Hp') as [? ?].
      exists p', h', a'. rewrite !lookup_insert_ne by done. done.
  - intros p' h' a' s' Hp' Ha' Hin. rewrite lookup_insert in Hp'. case_decide; simplify_eq.
    + rewrite lookup_insert_eq in Ha'. simplify_eq. simpl in Hin.
      apply list_elem_of_singleton in Hin as ->. exists sk. by rewrite lookup_insert_eq.
    + destruct (Hold _ _ Hp') as [? ?]. rewrite lookup_insert_ne in Ha' by done.
      destruct (wf_subscriber _ Hwf _ _ _ _ Hp' Ha' Hin) as (sk' & Hs' & ?).
      exists sk'. rewrite lookup_insert_ne; [done|congruence].
  - intros s' sk' Hs'. rewrite lookup_insert in Hs'. case_decide; simplify_eq; [done|].
    by eapply wf_callback.
Qed.

(** A later subscriber: a fresh socket joins the handler of its path. *)
Lemma wf_attach w p h o a s sk :
  wf w → active_handlers w !! p = Some h → handlers w !! h = Some a →
  active_observers w !! p = Some o → sockets w !! s = None →
  started_observer sk = true → path sk = Some p → observer sk = Some o →
  is_Some (callback sk) →
  wf {| active_handlers := active_handlers w;
        active_observers := active_observers w;
        handlers := <[h := set_websockets (websockets a ++ [s]) a]> (handlers w);
        observers := observers w;
        sockets := <[s := sk]> (sockets w) |}.
Proof.
  intros Hwf Hah Hha Hao Hs Hst Hpath Hobs Hcb.
  destruct (wf_handler _ Hwf _ _ Hah) as (a0 & Ha0 & Hroot & Hne & Hnd & Hopt).
  simplify_eq.
  assert (Hfresh : s ∉ websockets a).
  { intros Hin. destruct (wf_subscriber _ Hwf _ _ _ _ Hah Hha Hin) as (? & ? & _).
    congruence. }
  constructor; simpl.
  - apply Hwf.
  - intros p' h' Hp'. destruct (decide (h' = h)) as [->|Hneq].
    + rewrite lookup_insert_eq. eexists. split; [done|]. simpl.
      pose proof (wf_handler_inj _ _ _ _ Hwf Hah Hp'). subst.
      repeat split; try done.
      * intros Happ. by apply app_eq_nil in Happ as [_ ?].
      * apply NoDup_app. repeat split; [done| |apply NoDup_singleton].
        intros x Hx Hx'. apply list_elem_of_singleton in Hx'. by subst.
    + rewrite lookup_insert_ne by done. by eapply wf_handler.
  - apply Hwf.
  - apply Hwf.
  - intros s' sk' Hs' Hst'. rewrite lookup_insert in Hs'. case_decide; simplify_eq.
    + eexists (root a), h, _. rewrite lookup_insert_eq. repeat split; try done.
      * simpl. apply elem_of_app. right. by apply list_elem_of_singleton.
      * congruence.
    + destruct (wf_attached _ Hwf _ _ Hs' Hst') as (p' & h' & a' & ? & Hp' & Ha' & Hin & ?).
      destruct (decide (h' = h)) as [->|Hneq].
      * simplify_eq. eexists p', h, _. rewrite lookup_insert_eq.
        repeat split; try done. simpl. apply elem_of_app. by left.
      * exists p', h', a'. rewrite lookup_insert_ne by done. done.
  - intros p' h' a' s' Hp' Ha' Hin. rewrite lookup_insert in Ha'. case_decide; simplify_eq.
    + pose proof (wf_handler_inj _ _ _ _ Hwf Hah Hp'). subst. simpl in Hin.
      apply elem_of_app in Hin as [Hin|Hin].
      * destruct (wf_subscriber _ Hwf _ _ _ _ Hah Hha Hin) as (sk' & Hs' & ?).
        exists sk'. rewrite lookup_insert_ne; [done|congruence].
      * apply list_elem_of_singleton in Hin as ->. exists sk.
        by rewrite lookup_insert_eq.
    + destruct (wf_subscriber _ Hwf _ _ _ _ Hp' Ha' Hin) as (sk' & Hs' & ?).
      exists sk'. rewrite lookup_insert_ne; [done|congruence].
  - intros s' sk' Hs'. rewrite lookup_insert in Hs'. case_decide; simplify_eq; [done|].
    by eapply wf_callback.
Qed.

Lemma list_remove_first_subseteq s l x :
  x ∈ list_remove_first s l → x ∈ l.
Proof.
  induction l as [|y l IH]; simpl; [done|].
  case_decide; subst.
  - intros ?. by right.
  - intros [->|?]%elem_of_cons; [left|right; auto].
Qed.

Lemma list_remove_first_other s l x :
  x ∈ l → x ≠ s → x ∈ list_remove_first s l.
Proof.
  induction l as [|y l IH]; simpl; [done|].
  intros [->|Hin]%elem_of_cons Hne; case_decide; subst; try done.
  - left.
  - right. auto.
Qed.

Lemma list_remove_first_NoDup s l :
  NoDup l → NoDup (list_remove_first s l) ∧ s ∉ list_remove_first s l.
Proof.
  induction 1 as [|y l Hy Hnd [IH1 IH2]]; simpl.
  - split; [constructor|apply not_elem_of_nil].
  - case_decide; subst; [done|]. split.
    + constructor; [|done]. intros Hin. by apply list_remove_first_subseteq in Hin.
    + intros [?|?]%elem_of_cons; done.
Qed.

Lemma list_remove_first_nil s l :
  s ∈ l → list_remove_first s l = [] → l = [s].
Proof.
  destruct l as [|y l]; simpl; [by intros ?%elem_of_nil|].
  case_decide; subst; [by intros _ ->|done].
Qed.

(** A socket that is attached to nothing is dropped. *)
Lemma wf_drop_unattached w s :
  wf w → (∀ sk, sockets w !! s = Some sk → started_observer sk = false) →
  wf (with_sockets (delete s (sockets w)) w).
Proof.
  intros Hwf Hs. constructor; simpl; try apply Hwf.
  - intros s' sk' [Hne Hs']%lookup_delete_Some Hst. by eapply wf_attached.
  - intros p h a s' Hp Ha Hin.
    destruct (wf_subscriber _ Hwf _ _ _ _ Hp Ha Hin) as (sk' & Hs' & Hst & ?).
    exists sk'. rewrite lookup_delete_ne; [done|].
    intros ->. specialize (Hs _ Hs'). congruence.
  - intros s' sk' [Hne Hs']%lookup_delete_Some. by eapply wf_callback.
Qed.

(** A subscriber leaves and is dropped; others remain. *)
Lemma wf_close_others w s sk p h a :
  wf w → sockets w !! s = Some sk → started_observer sk = true →
  path sk = Some p → active_handlers w !! p = Some h → handlers w !! h = Some a →
  list_remove_first s (websockets a) ≠ [] →
  wf {| active_handlers := active_handlers w;
        active_observers := active_observers w;
        handlers := <[h := set_websockets (list_remove_first s (websockets a)) a]> (handlers w);
        observers := observers w;
        sockets := delete s (sockets w) |}.
Proof.
  intros Hwf Hs Hst Hpath Hah Hha Hrest.
  destruct (wf_handler _ Hwf _ _ Hah) as (a0 & Ha0 & Hroot & Hne & Hnd & Hopt).
  simplify_eq.
  destruct (list_remove_first_NoDup s _ Hnd) as [Hnd' Hgone].
  constructor; simpl.
  - apply Hwf.
  - intros p' h' Hp'. destruct (decide (h' = h)) as [->|Hneq].
    + rewrite lookup_insert_eq. eexists. split; [done|]. simpl.
      pose proof (wf_handler_inj _ _ _ _ Hwf Hah Hp'). subst. done.
    + rewrite lookup_insert_ne by done. by eapply wf_handler.
  - apply Hwf.
  - apply Hwf.
  - intros s' sk' [Hns Hs']%lookup_delete_Some Hst'.
    destruct (wf_attached _ Hwf _ _ Hs' Hst') as (p' & h' & a' & ? & Hp' & Ha' & Hin & ?).
    destruct (decide (h' = h)) as [->|Hneq].
    + simplify_eq. eexists p', h, _. rewrite lookup_insert_eq.
      repeat split; try done. simpl. apply list_remove_first_other; [done|congruence].
    + exists p', h', a'. rewrite lookup_insert_ne by done. done.
  - intros p' h' a' s' Hp' Ha' Hin. rewrite lookup_insert in Ha'. case_decide; simplify_eq.
    + pose proof (wf_handler_inj _ _ _ _ Hwf Hah Hp'). subst. simpl in Hin.
      assert (s' ≠ s) by (intros ->; done).
      apply list_remove_first_subseteq in Hin.
      destruct (wf_subscriber _ Hwf _ _ _ _ Hah Hha Hin) as (sk' & Hs' & ?).
      exists sk'. by rewrite lookup_delete_ne.
    + destruct (wf_subscriber _ Hwf _ _ _ _ Hp' Ha' Hin) as (sk' & Hs' & ? & Hpath').
      exists sk'. rewrite lookup_delete_ne; [done|].
      intros ->. simplify_eq.
  - intros s' sk' [Hns Hs']%lookup_delete_Some. by eapply wf_callback.
Qed.

(** The last subscriber leaves and is dropped: the observer is stopped
    and the path leaves both tables. *)
Lemma wf_close_last w s sk p h a o ob :
  wf w → sockets w !! s = Some sk → started_observer sk = true →
  path sk = Some p → active_handlers w !! p = Some h → handlers w !! h = Some a →
  s ∈ websockets a →
  list_remove_first s (websockets a) = [] →
  active_observers w !! p = Some o → observers w !! o = Some ob →
  wf {| active_handlers := delete p (active_handlers w);
        active_observers := delete p (active_observers w);
        handlers := <[h := set_websockets [] a]> (handlers w);
        observers := <[o := set_state Stopped ob]> (observers w);
        sockets := delete s (sockets w) |}.
Proof.
  intros Hwf Hs Hst Hpath Hah Hha Hin Hrest Hao Hob.
  apply list_remove_first_nil in Hrest; [|done].
  assert (Hold : ∀ p' h', p' ≠ p → active_handlers w !! p' = Some h' → h' ≠ h).
  { intros p' h' Hne Hp' ->. by pose proof (wf_handler_inj _ _ _ _ Hwf Hah Hp'). }
  assert (Holdo : ∀ p' o', p' ≠ p → active_observers w !! p' = Some o' → o' ≠ o).
  { intros p' o' Hne Hp' ->.
    destruct (wf_observer _ Hwf _ _ Hp') as (? & ? & ?).
    destruct (wf_observer _ Hwf _ _ Hao) as (? & ? & ?). congruence. }
  constructor; simpl.
  - rewrite !dom_delete_L. by rewrite (wf_tables _ Hwf).
  - intros p' h' [Hne Hp']%lookup_delete_Some.
    rewrite lookup_insert_ne by (symmetry; eauto). by eapply wf_handler.
  - intros p' o' [Hne Hp']%lookup_delete_Some.
    destruct (wf_observer _ Hwf _ _ Hp') as (h' & Hh' & Hob').
    exists h'. rewrite lookup_delete_ne by done.
    rewrite lookup_insert_ne by (symmetry; eauto). done.
  - intros o' ob' Hob' Hrun. rewrite lookup_insert in Hob'. case_decide; simplify_eq.
    destruct (wf_running _ Hwf _ _ Hob' Hrun) as (h' & p' & Hw & Hp').
    exists h', p'. split; [done|]. rewrite lookup_delete_ne; [done|].
    intros ->. congruence.
  - intros s' sk' [Hns Hs']%lookup_delete_Some Hst'.
    destruct (wf_attached _ Hwf _ _ Hs' Hst') as (p' & h' & a' & ? & Hp' & Ha' & Hin' & ?).
    assert (p' ≠ p).
    { intros ->. simplify_eq. rewrite Hrest in Hin'.
      apply list_elem_of_singleton in Hin'. done. }
    exists p', h', a'. rewrite !lookup_delete_ne by done.
    rewrite lookup_insert_ne by (symmetry; eauto). done.
  - intros p' h' a' s' [Hne Hp']%lookup_delete_Some Ha' Hin'.
    rewrite lookup_insert_ne in Ha' by (symmetry; eauto).
    destruct (wf_subscriber _ Hwf _ _ _ _ Hp' Ha' Hin') as (sk' & Hs' & ? & Hpath').
    exists sk'. rewrite lookup_delete_ne; [done|].
    intros ->. simplify_eq.
  - intros s' sk' [Hns Hs']%lookup_delete_Some. by eapply wf_callback.
Qed.

Lemma fresh_lookup {V} (m : gmap nat V) : m !! fresh (dom m) = None.
Proof. apply not_elem_of_dom, is_fresh. Qed.

Lemma drop_socket_insert s sk m w :
  drop_socket s (with_sockets (<[s := sk]> m) w) = with_sockets (delete s m) w.
Proof. unfold drop_socket, with_sockets. simpl. by rewrite delete_insert_eq. Qed.

Section Invariant.

Variable ARGUS_ROOT : string.

Lemma wf_connect os kw request w :
  wf w → wf (connect ARGUS_ROOT os kw request w).1.
Proof.
  intros Hwf.
  destruct (kw !! "path") as [path_arg|] eqn:Hkw;
    [|rewrite connect_no_path by done; apply wf_new_socket; [done|apply fresh_lookup|done|by eexists]].
  set (p := path_join ARGUS_ROOT path_arg).
  destruct (os_path_exists os p) eqn:Hex;
    [|erewrite connect_path_missing by done; apply wf_new_socket; [done|apply fresh_lookup|done|by eexists]].
  destruct (active_observers w !! p) as [o|] eqn:Hao.
  - destruct (wf_observer _ Hwf _ _ Hao) as (h & Hah & Hob).
    destruct (wf_handler _ Hwf _ _ Hah) as (a & Ha & _).
    erewrite connect_attach by done. simpl.
    eapply wf_attach; eauto using fresh_lookup.
  - assert (Hnin : p ∉ dom (active_observers w)) by by apply not_elem_of_dom.
    destruct (decide (define_options (default [] (request !! "enable"))
                        (default [] (request !! "disable")) = [])) as [Hopt|Hopt].
    { erewrite connect_empty_options by done. apply wf_new_socket; [done|apply fresh_lookup|done|by eexists]. }
    destruct (can_start os) eqn:Hstart.
    + erewrite connect_create by done. simpl.
      apply wf_create; eauto using fresh_lookup.
    + erewrite connect_start_failed by done. simpl.
      match goal with
      | |- wf {| active_handlers := _; active_observers := _;
                 handlers := <[?h := ?a]> _; observers := <[?o := ?ob]> _;
                 sockets := <[?s := ?sk]> _ |} =>
          let w1 := constr:(with_handlers (<[h := a]> (handlers w)) w) in
          let w2 := constr:(with_observers (<[o := ob]> (observers w1)) w1) in
          change (wf (with_sockets (<[s := sk]> (sockets w2)) w2))
      end.
      apply wf_new_socket; [|apply fresh_lookup|done|by eexists].
      apply wf_new_observer; [|apply fresh_lookup|done].
      apply wf_new_handler; [done|apply fresh_lookup].
Qed.

Lemma wf_disconnect s w :
  wf w → wf (drop_socket s (on_close s w).1).
Proof.
  intros Hwf.
  destruct (sockets w !! s) as [sk|] eqn:Hs.
  2:{ assert (on_close s w = (w, Raised Dangling)) as ->.
      { unfold on_close. py_unfold. by rewrite Hs. }
      apply wf_drop_unattached; [done|]. simpl. intros; congruence. }
  destruct (wf_callback _ Hwf _ _ Hs) as [c Hc].
  destruct (started_observer sk) eqn:Hst.
  2:{ erewrite on_close_unattached by done. simpl. rewrite drop_socket_insert.
      apply wf_drop_unattached; [done|]. simpl. intros; congruence. }
  destruct (wf_attached _ Hwf _ _ Hs Hst) as (p & h & a & Hp & Hah & Hha & Hin & Hobs).
  assert (Hdom : p ∈ dom (active_observers w)).
  { rewrite <-(wf_tables _ Hwf). apply elem_of_dom. eauto. }
  destruct (active_observers w !! p) as [o|] eqn:Hao;
    [|by apply not_elem_of_dom in Hao].
  destruct (wf_observer _ Hwf _ _ Hao) as (h' & Hah' & Hob). simplify_eq.
  destruct (decide (list_remove_first s (websockets a) = [])) as [Hrest|Hrest].
  - erewrite on_close_last by done. unfold drop_socket, with_sockets. simpl.
    rewrite delete_insert_eq.
    by eapply wf_close_last.
  - erewrite on_close_others by done. unfold drop_socket, with_sockets. simpl.
    rewrite delete_insert_eq.
    by eapply wf_close_others.
Qed.

Lemma wf_perform a w : wf w → wf (perform ARGUS_ROOT a w).
Proof.
  intros Hwf. destruct a as [os kw request|s|s|o ev]; simpl.
  - by apply wf_connect.
  - apply wf_update_transport; [|done]. intros sk. by repeat split.
  - by apply wf_disconnect.
  - eapply wf_transport_only; [apply frames_emit|done].
Qed.

Lemma reachable_wf w : reachable ARGUS_ROOT w → wf w.
Proof.
  induction 1; [apply wf_initial|by apply wf_perform].
Qed.

Lemma reachable_run l w :
  reachable ARGUS_ROOT w → reachable ARGUS_ROOT (run ARGUS_ROOT l w).
Proof.
  revert w. induction l as [|a l IH]; intros w Hw; [done|].
  simpl. apply IH. by constructor.
Qed.

End Invariant.

(** * The two tables have the same keys *)

Lemma preserves_ret I {A} (a : A) : preserves I (ret a).
Proof. by intros w. Qed.

Lemma preserves_raise I {A} e : preserves I (@raise A e).
Proof. by intros w. Qed.

Lemma preserves_bind I {A B} (m : Py A) (k : A → Py B) :
  preserves I m → (∀ a, preserves I (k a)) → preserves I (bind m k).
Proof.
  intros Hm Hk w Hw. unfold bind. specialize (Hm w Hw).
  destruct (m w) as [w' [a|e]]; simpl in *; [by apply Hk|done].
Qed.

Lemma preserves_try_except I {A} (m : Py A) e (h : Py A) :
  preserves I m → preserves I h → preserves I (try_except m e h).
Proof.
  intros Hm Hh w Hw. unfold try_except. specialize (Hm w Hw).
  destruct (m w) as [w' [a|e']]; simpl in *; [done|].
  case_decide; [by apply Hh|done].
Qed.

Lemma keeps_tables_preserves {A} (m : Py A) :
  keeps_tables m → preserves same_keys m.
Proof. intros Hm w Hw. unfold same_keys. destruct (Hm w) as [-> ->]. done. Qed.

Lemma keeps_tables_or_raise {A} (o : option A) e : keeps_tables (or_raise o e).
Proof. by destruct o. Qed.

Lemma keeps_tables_update_socket s f : keeps_tables (update_socket s f).
Proof. intros w. py_unfold. by destruct (sockets w !! s). Qed.

Lemma keeps_tables_update_handler h f : keeps_tables (update_handler h f).
Proof. intros w. py_unfold. by destruct (handlers w !! h). Qed.

Lemma keeps_tables_update_observer o f : keeps_tables (update_observer o f).
Proof. intros w. py_unfold. by destruct (observers w !! o). Qed.

Lemma keeps_tables_get_socket s : keeps_tables (get_socket s).
Proof. intros w. py_unfold. by destruct (sockets w !! s). Qed.

Lemma keeps_tables_get_handler h : keeps_tables (get_handler h).
Proof. intros w. py_unfold. by destruct (handlers w !! h). Qed.

Lemma keeps_tables_write_message s m : keeps_tables (write_message s m).
Proof.
  intros w. py_unfold. destruct (sockets w !! s) as [sk|]; simpl; [|done].
  destruct (ws_connection sk); simpl; [|done].
  by destruct (sockets w !! s).
Qed.

Lemma keeps_tables_remove_socket h s : keeps_tables (remove_socket h s).
Proof.
  intros w. py_unfold. destruct (handlers w !! h) as [a|] eqn:Ha; simpl; [|done].
  case_bool_decide; simpl; [|done]. by rewrite Ha.
Qed.

Lemma keeps_tables_start os o : keeps_tables (start os o).
Proof.
  unfold start. destruct (can_start os); [apply keeps_tables_update_observer|done].
Qed.

Lemma same_keys_register p h o {A} (k : Py A) :
  preserves same_keys k →
  preserves same_keys
    (bind (modify (λ w, with_active_handlers (<[p := h]> (active_handlers w)) w))
       (λ _, bind (modify (λ w, with_active_observers (<[p := o]> (active_observers w)) w))
               (λ _, k))).
Proof.
  intros Hk w Hw. unfold bind, modify. simpl. apply Hk.
  unfold same_keys in *. simpl. by rewrite !dom_insert_L, Hw.
Qed.

Lemma same_keys_unregister p :
  preserves same_keys (bind (del_active_observers p) (λ _, del_active_handlers p)).
Proof.
  intros w Hw. unfold same_keys in *.
  unfold del_active_observers, del_active_handlers. py_unfold. simpl.
  case_bool_decide as Hin; simpl; [|done].
  rewrite bool_decide_eq_true_2 by (by rewrite Hw). simpl.
  by rewrite !dom_delete_L, Hw.
Qed.

Create HintDb tables.

#[local] Hint Resolve preserves_ret preserves_raise keeps_tables_preserves
  keeps_tables_or_raise keeps_tables_update_socket keeps_tables_update_handler
  keeps_tables_update_observer keeps_tables_get_socket keeps_tables_get_handler
  keeps_tables_write_message keeps_tables_remove_socket keeps_tables_start : tables.

Ltac tables :=
  repeat first
    [ solve [auto with tables]
    | solve [apply keeps_tables_preserves; intros w; done]
    | progress cbv zeta
    | simple apply same_keys_register
    | simple apply same_keys_unregister
    | simple apply preserves_bind; [|intros ?]
    | simple apply preserves_try_except
    | match goal with |- preserves _ (if ?b then _ else _) => destruct b end
    | match goal with |- preserves _ (match ?o with _ => _ end) => destruct o end ].

Section Tables.

Variable ARGUS_ROOT : string.

Lemma same_keys_initiation_handler os s :
  preserves same_keys (initiation_handler ARGUS_ROOT os s).
Proof.
  unfold initiation_handler, close, add_socket, Argus_new, Observer_new, schedule.
  tables.
Qed.

Lemma same_keys_connect os kw request :
  preserves same_keys (connect ARGUS_ROOT os kw request).
Proof.
  unfold connect, open, ArgusWebSocketHandler_new.
  pose proof same_keys_initiation_handler. tables.
Qed.

Lemma same_keys_on_close s : preserves same_keys (on_close s).
Proof. unfold on_close, stop. tables. Qed.

End Tables.

(** C10.  Every step of the server (a connection opening, a transport
    going away, a connection closing, an event) keeps the key sets of
    [active_handlers] and [active_observers] equal, also when the
    callback raises: the pair is inserted together and deleted together. *)
Theorem registry_same_keys (ARGUS_ROOT : string) (a : action) (w : World) :
  same_keys w → same_keys (perform ARGUS_ROOT a w).
Proof.
  intros Hw. destruct a as [os kw request|s|s|o ev]; simpl.
  - by apply same_keys_connect.
  - by apply keeps_tables_preserves; [apply keeps_tables_update_socket|].
  - by apply (same_keys_on_close s w).
  - unfold same_keys. destruct (frames_emit o ev w) as (-> & -> & _). done.
Qed.

Lemma registry_same_keys_witness :
  same_keys initial
  ∧ same_keys (perform "/watched" (subscribe os_ok "a" ∅) initial)
  ∧ same_keys (perform "/watched" (Disconnect 0)
                 (perform "/watched" (subscribe os_ok "a" ∅) initial)).
Proof.
  assert (H0 : same_keys initial) by reflexivity.
  pose proof (registry_same_keys "/watched" (subscribe os_ok "a" ∅) initial H0) as H1.
  pose proof (registry_same_keys "/watched" (Disconnect 0) _ H1) as H2.
  exact (conj H0 (conj H1 H2)).
Defined.

(** * Errors while subscribing *)

(** C7.  A connection to a path that does not exist is told
    [Path does not exist.] and closed; a connection whose observer cannot
    be started is told [Cannot start observer] and closed.  In both cases
    the call returns, the session stays unattached and both registry
    tables are what they were; in the first case no handler or observer
    was built at all, in the second the pair that was built is in neither
    table. *)
Theorem subscribe_errors (ARGUS_ROOT : string) (w : World) (os : OS)
    (kw : gmap string string) (request : gmap string (list string))
    (path_arg : string) :
  kw !! "path" = Some path_arg →
  let p := path_join ARGUS_ROOT path_arg in
  let s := fresh (dom (sockets w)) in
  let h := fresh (dom (handlers w)) in
  let o := fresh (dom (observers w)) in
  let r := connect ARGUS_ROOT os kw request w in
  (os_path_exists os p = false →
     r.2 = Returned s
     ∧ active_handlers r.1 = active_handlers w
     ∧ active_observers r.1 = active_observers w
     ∧ handlers r.1 = handlers w
     ∧ observers r.1 = observers w
     ∧ ∃ sk, sockets r.1 = <[s := sk]> (sockets w)
             ∧ written sk = [Text "Path does not exist."]
             ∧ closed sk = true ∧ started_observer sk = false)
  ∧ (os_path_exists os p = true →
     p ∉ dom (active_observers w) →
     define_options (default [] (request !! "enable"))
                    (default [] (request !! "disable")) ≠ [] →
     can_start os = false →
     r.2 = Returned s
     ∧ active_handlers r.1 = active_handlers w
     ∧ active_observers r.1 = active_observers w
     ∧ dom (handlers r.1) = {[h]} ∪ dom (handlers w)
     ∧ dom (observers r.1) = {[o]} ∪ dom (observers w)
     ∧ (state <$> observers r.1 !! o) = Some Unstarted
     ∧ (wf w → ∀ q, active_handlers r.1 !! q ≠ Some h
                     ∧ active_observers r.1 !! q ≠ Some o)
     ∧ ∃ sk, sockets r.1 = <[s := sk]> (sockets w)
             ∧ written sk = [Text "Cannot start observer"]
             ∧ closed sk = true ∧ started_observer sk = false).
Proof.
  intros Hkw p s h o r. split.
  - intros Hex. subst r. erewrite connect_path_missing by done. simpl.
    repeat split; eauto.
  - intros Hex Hnin Hopt Hstart. subst r.
    erewrite connect_start_failed by done. simpl.
    repeat split; eauto.
    + by rewrite dom_insert_L.
    + by rewrite dom_insert_L.
    + by rewrite lookup_insert_eq.
    + intros Hq. destruct (wf_handler _ H _ _ Hq) as (a & Ha & _).
      subst h. by rewrite fresh_lookup in Ha.
    + intros Hq. destruct (wf_observer _ H _ _ Hq) as (h' & _ & Hob).
      subst o. by rewrite fresh_lookup in Hob.
Qed.

Lemma subscribe_errors_witness :
  (let r := connect "/watched" os_ok {["path" := "b"]} ∅ initial in
   r.2 = Returned 0 ∧ active_handlers r.1 = ∅ ∧ active_observers r.1 = ∅
   ∧ handlers r.1 = ∅ ∧ observers r.1 = ∅
   ∧ ∃ sk, sockets r.1 = <[0 := sk]> ∅
           ∧ written sk = [Text "Path does not exist."]
           ∧ closed sk = true ∧ started_observer sk = false)
  ∧ (let r := connect "/watched" os_exhausted {["path" := "a"]} ∅ initial in
     r.2 = Returned 0 ∧ active_handlers r.1 = ∅ ∧ active_observers r.1 = ∅
     ∧ ∃ sk, sockets r.1 = <[0 := sk]> ∅
             ∧ written sk = [Text "Cannot start observer"]
             ∧ closed sk = true ∧ started_observer sk = false).
Proof.
  assert (Hb : ({["path" := "b"]} : gmap string string) !! "path" = Some "b")
    by (vm_compute; reflexivity).
  assert (Ha : ({["path" := "a"]} : gmap string string) !! "path" = Some "a")
    by (vm_compute; reflexivity).
  split.
  - destruct (subscribe_errors "/watched" initial os_ok {["path" := "b"]} ∅ "b" Hb)
      as [H _].
    apply H. vm_compute; reflexivity.
  - destruct (subscribe_errors "/watched" initial os_exhausted {["path" := "a"]} ∅ "a" Ha)
      as [_ H].
    destruct H as (H1 & H2 & H3 & _ & _ & _ & _ & H4).
    + vm_compute; reflexivity.
    + apply not_elem_of_empty.
    + by vm_compute.
    + reflexivity.
    + exact (conj H1 (conj H2 (conj H3 H4))).
Defined.

(** * Unsubscribing *)

(** C6.  When a connection that was attached closes, its socket leaves
    the subscriber list of the handler of its path and the other
    subscribers stay.  If the list is then empty, the observer is stopped
    and the path is deleted from both tables; if it is not, the tables
    and every observer are as before (the observer keeps running) and
    no other socket is touched. *)
Theorem unsubscribe (ARGUS_ROOT : string) (w : World) (s : nat)
    (sk : ArgusWebSocketHandler) :
  reachable ARGUS_ROOT w →
  sockets w !! s = Some sk → started_observer sk = true →
  ∃ p h a o,
    path sk = Some p ∧ active_handlers w !! p = Some h ∧ handlers w !! h = Some a
    ∧ s ∈ websockets a ∧ active_observers w !! p = Some o
    ∧ (state <$> observers w !! o) = Some Running
    ∧ let w' := perform ARGUS_ROOT (Disconnect s) w in
      let rest := list_remove_first s (websockets a) in
      (websockets <$> handlers w' !! h) = Some rest
      ∧ (s ∉ rest)
      ∧ (∀ x, x ≠ s → (x ∈ rest ↔ x ∈ websockets a))
      ∧ (rest = [] →
           active_handlers w' = delete p (active_handlers w)
           ∧ active_observers w' = delete p (active_observers w)
           ∧ (state <$> observers w' !! o) = Some Stopped)
      ∧ (rest ≠ [] →
           active_handlers w' = active_handlers w
           ∧ active_observers w' = active_observers w
           ∧ observers w' = observers w
           ∧ ∀ x, x ≠ s → sockets w' !! x = sockets w !! x).
Proof.
  intros Hreach Hs Hst. pose proof (reachable_wf _ _ Hreach) as Hwf.
  destruct (wf_callback _ Hwf _ _ Hs) as [c Hc].
  destruct (wf_attached _ Hwf _ _ Hs Hst) as (p & h & a & Hp & Hah & Hha & Hin & Hobs).
  assert (Hdom : p ∈ dom (active_observers w)).
  { rewrite <-(wf_tables _ Hwf). apply elem_of_dom. eauto. }
  destruct (active_observers w !! p) as [o|] eqn:Hao;
    [|by apply not_elem_of_dom in Hao].
  destruct (wf_observer _ Hwf _ _ Hao) as (h' & Hah' & Hob). simplify_eq.
  destruct (wf_handler _ Hwf _ _ Hah) as (a0 & Ha0 & Hroot & Hne & Hnd & Hopt).
  simplify_eq.
  destruct (list_remove_first_NoDup s _ Hnd) as [Hnd' Hgone].
  exists (root a), h, a, o. repeat (split; [try done; by rewrite ?Hob|]).
  cbv zeta. simpl.
  destruct (decide (list_remove_first s (websockets a) = [])) as [Hrest|Hrest].
  - erewrite on_close_last by done. unfold drop_socket, with_sockets. simpl.
    rewrite !lookup_insert_eq. simpl. rewrite Hrest.
    repeat split; try done.
    + apply not_elem_of_nil.
    + by intros ?%elem_of_nil.
    + intros Hx. apply list_remove_first_nil in Hrest; [|done].
      rewrite Hrest in Hx. by apply list_elem_of_singleton in Hx.
  - erewrite on_close_others by done. unfold drop_socket, with_sockets. simpl.
    rewrite !lookup_insert_eq. simpl.
    repeat split; try done.
    + apply list_remove_first_subseteq.
    + intros Hx. by apply list_remove_first_other.
    + intros x Hx. rewrite delete_insert_eq. by rewrite lookup_delete_ne.
Qed.

Lemma unsubscribe_witness :
  ∃ sk, sockets two_subscribers !! 0 = Some sk ∧ started_observer sk = true
    ∧ ∃ p h a o,
        path sk = Some p ∧ active_handlers two_subscribers !! p = Some h
        ∧ handlers two_subscribers !! h = Some a
        ∧ 0 ∈ websockets a ∧ active_observers two_subscribers !! p = Some o
        ∧ (state <$> observers two_subscribers !! o) = Some Running
        ∧ let w' := perform "/watched" (Disconnect 0) two_subscribers in
          let rest := list_remove_first 0 (websockets a) in
          (websockets <$> handlers w' !! h) = Some rest
          ∧ (0 ∉ rest)
          ∧ (∀ x, x ≠ 0 → (x ∈ rest ↔ x ∈ websockets a))
          ∧ (rest = [] →
               active_handlers w' = delete p (active_handlers two_subscribers)
               ∧ active_observers w' = delete p (active_observers two_subscribers)
               ∧ (state <$> observers w' !! o) = Some Stopped)
          ∧ (rest ≠ [] →
               active_handlers w' = active_handlers two_subscribers
               ∧ active_observers w' = active_observers two_subscribers
               ∧ observers w' = observers two_subscribers
               ∧ ∀ x, x ≠ 0 → sockets w' !! x = sockets two_subscribers !! x).
Proof.
  assert (Hs : ∃ sk, sockets two_subscribers !! 0 = Some sk
                     ∧ started_observer sk = true).
  { vm_compute. eexists; split; reflexivity. }
  destruct Hs as (sk & Hs & Hst). exists sk. split; [exact Hs|]. split; [exact Hst|].
  apply (unsubscribe "/watched" two_subscribers 0 sk); [|exact Hs|exact Hst].
  apply reachable_run, reachable_initial.
Defined.

(** * A handler keeps its options *)

Lemma keeps_handlers_preserves h opts {A} (m : Py A) :
  keeps_handlers m → preserves (has_options h opts) m.
Proof. intros Hm w Hw. unfold has_options. by rewrite Hm. Qed.

Lemma has_options_update_handler h opts h' f :
  (∀ a, options (f a) = options a) →
  preserves (has_options h opts) (update_handler h' f).
Proof.
  intros Hf w (a & Ha & Hopt). py_unfold.
  destruct (handlers w !! h') as [a'|] eqn:Ha'; simpl; [|by exists a].
  unfold has_options. simpl. rewrite lookup_insert. case_decide; simplify_eq.
  - eexists. split; [done|]. by rewrite Hf.
  - by exists a.
Qed.

Lemma has_options_remove_socket h opts h' s :
  preserves (has_options h opts) (remove_socket h' s).
Proof.
  unfold remove_socket. apply preserves_bind.
  - apply keeps_handlers_preserves. intros w. py_unfold. by destruct (handlers w !! h').
  - intros a. case_bool_decide; [|apply preserves_ret].
    by apply has_options_update_handler.
Qed.

Lemma has_options_Argus_new h opts s p o :
  preserves (has_options h opts) (Argus_new s p o).
Proof.
  intros w (a & Ha & Hopt). unfold Argus_new. py_unfold. simpl.
  exists a. split; [|done]. simpl. rewrite lookup_insert_ne; [done|].
  intros <-. by rewrite fresh_lookup in Ha.
Qed.

Lemma keeps_handlers_or_raise {A} (o : option A) e : keeps_handlers (or_raise o e).
Proof. by destruct o. Qed.

Lemma keeps_handlers_update_socket s f : keeps_handlers (update_socket s f).
Proof. intros w. py_unfold. by destruct (sockets w !! s). Qed.

Lemma keeps_handlers_update_observer o f : keeps_handlers (update_observer o f).
Proof. intros w. py_unfold. by destruct (observers w !! o). Qed.

Lemma keeps_handlers_get_socket s : keeps_handlers (get_socket s).
Proof. intros w. py_unfold. by destruct (sockets w !! s). Qed.

Lemma keeps_handlers_get_handler h : keeps_handlers (get_handler h).
Proof. intros w. py_unfold. by destruct (handlers w !! h). Qed.

Lemma keeps_handlers_write_message s m : keeps_handlers (write_message s m).
Proof.
  intros w. py_unfold. destruct (sockets w !! s) as [sk|]; simpl; [|done].
  destruct (ws_connection sk); simpl; [|done].
  by destruct (sockets w !! s).
Qed.

Lemma keeps_handlers_start os o : keeps_handlers (start os o).
Proof.
  unfold start. destruct (can_start os); [apply keeps_handlers_update_observer|done].
Qed.

Lemma keeps_handlers_del_active_observers p : keeps_handlers (del_active_observers p).
Proof. intros w. unfold del_active_observers. py_unfold. by case_bool_decide. Qed.

Lemma keeps_handlers_del_active_handlers p : keeps_handlers (del_active_handlers p).
Proof. intros w. unfold del_active_handlers. py_unfold. by case_bool_decide. Qed.

Create HintDb handlers.

#[local] Hint Resolve preserves_ret preserves_raise keeps_handlers_preserves
  has_options_remove_socket has_options_Argus_new
  keeps_handlers_or_raise keeps_handlers_update_socket
  keeps_handlers_update_observer keeps_handlers_get_socket
  keeps_handlers_get_handler keeps_handlers_write_message keeps_handlers_start
  keeps_handlers_del_active_observers keeps_handlers_del_active_handlers : handlers.

Ltac handlers :=
  repeat first
    [ solve [auto with handlers]
    | solve [apply has_options_update_handler; done]
    | solve [apply keeps_handlers_preserves; intros w; done]
    | progress cbv zeta
    | simple apply preserves_bind; [|intros ?]
    | simple apply preserves_try_except
    | match goal with |- preserves _ (if ?b then _ else _) => destruct b end
    | match goal with |- preserves _ (match ?o with _ => _ end) => destruct o end ].





(** * Subscribing with no options *)

(** C8.  A connection to an unwatched, existing path whose options
    resolve to nothing returns at once.  The world is the old one plus
    the new socket, which has written nothing, is not closed and is
    attached to nothing; no handler or observer was built and the
    registry is as before.  When that connection closes later, the world
    is again what it was before it came. *)
Theorem connect_no_options (ARGUS_ROOT : string) (w : World) (os : OS)
    (kw : gmap string string) (request : gmap string (list string))
    (path_arg : string) :
  kw !! "path" = Some path_arg →
  os_path_exists os (path_join ARGUS_ROOT path_arg) = true →
  path_join ARGUS_ROOT path_arg ∉ dom (active_observers w) →
  define_options (default [] (request !! "enable"))
                 (default [] (request !! "disable")) = [] →
  let s := fresh (dom (sockets w)) in
  connect ARGUS_ROOT os kw request w
  = (with_sockets
       (<[s := {| started_observer := false; observer := None;
                  path := Some (path_join ARGUS_ROOT path_arg);
                  kwargs := kw; arguments := request; callback := Some true;
                  ws_connection := true; closed := false; written := [] |}]>
          (sockets w)) w,
     Returned s)
  ∧ perform ARGUS_ROOT (Disconnect s) (connect ARGUS_ROOT os kw request w).1 = w.
Proof.
  intros Hkw Hex Hnin Hopt s.
  rewrite (connect_empty_options ARGUS_ROOT w os kw request path_arg) by done.
  split; [done|]. simpl.
  match goal with
  | |- drop_socket _ (on_close _ (with_sockets (<[_ := ?sk]> _) _)).1 = _ =>
      rewrite (on_close_unattached (with_sockets (<[s := sk]> (sockets w)) w) s sk true)
        by (done || apply lookup_insert_eq)
  end.
  unfold drop_socket, with_sockets. simpl.
  rewrite insert_insert_eq, delete_insert_id by apply fresh_lookup.
  by destruct w.
Qed.

Lemma connect_no_options_witness :
  connect "/watched" os_ok {["path" := "a"]} (request [] ["all"]) initial
  = (with_sockets
       {[0 := {| started_observer := false; observer := None;
                 path := Some "/watched/a";
                 kwargs := {["path" := "a"]}; arguments := request [] ["all"];
                 callback := Some true;
                 ws_connection := true; closed := false; written := [] |}]}
       initial,
     Returned 0)
  ∧ perform "/watched" (Disconnect 0)
      (connect "/watched" os_ok {["path" := "a"]} (request [] ["all"]) initial).1
    = initial.
Proof.
  apply (connect_no_options "/watched" initial os_ok {["path" := "a"]}
           (request [] ["all"]) "a").
  - vm_compute; reflexivity.
  - vm_compute; reflexivity.
  - apply not_elem_of_empty.
  - by vm_compute.
Defined.

(** * Subscribing to a watched path *)




(** * N sessions on one path *)

Section Subscribing.

Variable ARGUS_ROOT : string.

Lemma subscribe_kw (path_arg : string) :
  ({["path" := path_arg]} : gmap string string) !! "path" = Some path_arg.
Proof. apply lookup_singleton_eq. Qed.

(** Any number of connections to a watched path: each joins the
    handler that is there; no handler or observer is built. *)
Lemma subscribes_watched (path_arg : string)
    (l : list (OS * gmap string (list string))) :
  let p := path_join ARGUS_ROOT path_arg in
  ∀ w h a o,
    wf w → active_handlers w !! p = Some h → handlers w !! h = Some a →
    active_observers w !! p = Some o →
    Forall (λ x, os_path_exists x.1 p = true) l →
    let w' := run ARGUS_ROOT (subscribes path_arg l) w in
    wf w'
    ∧ active_handlers w' = active_handlers w
    ∧ active_observers w' = active_observers w
    ∧ observers w' = observers w
    ∧ dom (handlers w') = dom (handlers w)
    ∧ ∃ a', handlers w' !! h = Some a'
            ∧ length (websockets a') = length (websockets a) + length l
            ∧ options a' = options a.
Proof.
  intros p. induction l as [|[os request] l IH]; intros w h a o Hwf Hah Ha Hao Hl; cbv zeta; simpl.
  - do 5 (split; [done|]). exists a. split; [done|]. split; [lia|done].
  - apply Forall_cons in Hl as [Hex Hl]. simpl in Hex.
    pose proof (wf_perform ARGUS_ROOT (subscribe os path_arg request) _ Hwf) as Hwf1.
    unfold subscribe in *. simpl in Hwf1 |- *.
    pose proof (connect_attach ARGUS_ROOT w os _ request path_arg h o a
                  (subscribe_kw path_arg) Hex Hao Hah Ha) as Hrun.
    cbv zeta in Hrun. rewrite Hrun in Hwf1 |- *. simpl in Hwf1 |- *.
    destruct (IH _ h (set_websockets (websockets a ++ [fresh (dom (sockets w))]) a)
                o Hwf1)
      as (G1 & G2 & G3 & G4 & G5 & a' & G6 & G7 & G8);
      [done|simpl; apply lookup_insert_eq|done|done|].
    simpl in *. do 4 (split; [done|]). split.
    + rewrite G5, dom_insert_L. apply subseteq_union_1_L, singleton_subseteq_l.
      by apply elem_of_dom_2 in Ha.
    + exists a'. split; [done|]. split; [|done].
      rewrite G7, length_app. simpl. lia.
Qed.

End Subscribing.

(** C1, as the code has it.  In every world the server can reach, the
    running observers that watch a path [p] are one at most, with one
    handler, and they are the ones the registry names for [p].  When
    sessions connect in a row to an existing path that is not watched,
    and the first has options that resolve to something and an observer
    that starts, then that first connection builds and registers the
    handler and the observer, and each later connection, whatever it
    asks for, joins that handler: after [k] of them the tables, the
    observers and the set of handlers are still those the first
    connection left, and the path's subscriber list has [k + 1] entries. *)
Theorem one_monitor_per_path (ARGUS_ROOT : string) (w : World) (os : OS)
    (path_arg : string) (request : gmap string (list string))
    (later : list (OS * gmap string (list string))) :
  reachable ARGUS_ROOT w →
  let p := path_join ARGUS_ROOT path_arg in
  (∀ o1 o2 ob1 ob2 h1 h2 r1 r2,
     observers w !! o1 = Some ob1 → state ob1 = Running → (h1, p, r1) ∈ watches ob1 →
     observers w !! o2 = Some ob2 → state ob2 = Running → (h2, p, r2) ∈ watches ob2 →
     o1 = o2 ∧ h1 = h2
     ∧ active_observers w !! p = Some o1 ∧ active_handlers w !! p = Some h1)
  ∧ (p ∉ dom (active_observers w) →
     os_path_exists os p = true → can_start os = true →
     define_options (default [] (request !! "enable"))
                    (default [] (request !! "disable")) ≠ [] →
     Forall (λ x, os_path_exists x.1 p = true) later →
     let h := fresh (dom (handlers w)) in
     let o := fresh (dom (observers w)) in
     let w1 := perform ARGUS_ROOT (subscribe os path_arg request) w in
     active_handlers w1 = <[p := h]> (active_handlers w)
     ∧ active_observers w1 = <[p := o]> (active_observers w)
     ∧ observers w1
       = <[o := {| watches := [(h, p, true)]; state := Running |}]> (observers w)
     ∧ dom (handlers w1) = {[h]} ∪ dom (handlers w)
     ∧ ∀ k, (k ≤ length later)%nat →
         let wk := run ARGUS_ROOT (subscribes path_arg (take k later)) w1 in
         active_handlers wk = active_handlers w1
         ∧ active_observers wk = active_observers w1
         ∧ observers wk = observers w1
         ∧ dom (handlers wk) = dom (handlers w1)
         ∧ length (subscribers_of wk p) = S k).
Proof.
  intros Hreach p. pose proof (reachable_wf _ _ Hreach) as Hwf. split.
  - intros o1 o2 ob1 ob2 h1 h2 r1 r2 Ho1 Hr1 Hw1 Ho2 Hr2 Hw2.
    destruct (wf_running _ Hwf _ _ Ho1 Hr1) as (h1' & p1 & E1 & Hao1).
    destruct (wf_running _ Hwf _ _ Ho2 Hr2) as (h2' & p2 & E2 & Hao2).
    rewrite E1 in Hw1. rewrite E2 in Hw2.
    apply list_elem_of_singleton in Hw1, Hw2. simplify_eq.
    destruct (wf_observer _ Hwf _ _ Hao1) as (h & Hah & Hob).
    rewrite Ho1 in Hob. simplify_eq. simpl in E1, E2. simplify_eq. done.
  - intros Hnin Hex Hstart Hopt Hlater h o w1.
    assert (Hw1 : w1 = (connect ARGUS_ROOT os {["path" := path_arg]} request w).1)
      by done.
    erewrite connect_create in Hw1 by (done || apply subscribe_kw). simpl in Hw1.
    assert (Hwf1 : wf w1) by (by apply wf_perform).
    split; [by rewrite Hw1|]. split; [by rewrite Hw1|]. split; [by rewrite Hw1|].
    split; [rewrite Hw1; simpl; by rewrite dom_insert_L|].
    intros k Hk wk.
    destruct (subscribes_watched ARGUS_ROOT path_arg (take k later) w1 h
                {| websockets := [fresh (dom (sockets w))]; root := p;
                   options := define_options (default [] (request !! "enable"))
                                (default [] (request !! "disable")) |} o Hwf1)
      as (G1 & G2 & G3 & G4 & G5 & a' & G6 & G7 & G8).
    + rewrite Hw1. simpl. apply lookup_insert_eq.
    + rewrite Hw1. simpl. apply lookup_insert_eq.
    + rewrite Hw1. simpl. apply lookup_insert_eq.
    + by apply Forall_take.
    + fold wk in G1, G2, G3, G4, G5, G6. do 4 (split; [done|]).
      assert (Hahk : active_handlers wk !! p = Some h).
      { rewrite G2, Hw1. simpl. apply lookup_insert_eq. }
      unfold subscribers_of. rewrite Hahk, G6, G7, length_take. simpl. lia.
Qed.

Lemma one_monitor_per_path_witness :
  length (subscribers_of
            (run "/watched" (subscribes "a" nothing_then_default)
               (perform "/watched" (subscribe os_ok "a" ∅) initial))
            "/watched/a") = 3.
Proof.
  destruct (one_monitor_per_path "/watched" initial os_ok "a" ∅ nothing_then_default
              (reachable_initial "/watched")) as [_ H].
  destruct H as (_ & _ & _ & _ & H).
  - apply not_elem_of_empty.
  - vm_compute; reflexivity.
  - reflexivity.
  - by vm_compute.
  - repeat constructor.
  - exact (proj2 (proj2 (proj2 (proj2 (H 2 (le_n 2)))))).
Defined.

(** C1 as stated fails: when the first of two sessions asks for nothing,
    it is the second that builds the handler, and the list has one entry. *)
Lemma first_subscribe_may_not_attach :
  ¬ every_subscribe_attaches "/watched" "a" nothing_then_default initial.
Proof.
  intros H. unfold every_subscribe_attaches in H.
  assert (Hex : Forall (λ x : OS * gmap string (list string),
                          os_path_exists x.1 (path_join "/watched" "a") = true)
                  nothing_then_default) by repeat constructor.
  specialize (H Hex). vm_compute in H. discriminate.
Qed.


(** * Paths in messages *)

(** The scenarios of the specification: the root occurs once, in front,
    and the paths come out relative to it. *)
Lemma scenario_created_and_moved :
  (written <$> sockets (perform "/watched" (FsEvent 0 created_x) one_subscriber) !! 0)
  = Some [Json (list_to_map [("event_type", JString "created");
                             ("is_directory", JBool false);
                             ("src_path", JString "/x.txt")])]
  ∧ (written <$> sockets (perform "/watched" (FsEvent 0 moved_x_y) one_subscriber) !! 0)
    = Some [Json (list_to_map [("event_type", JString "moved");
                               ("is_directory", JBool false);
                               ("src_path", JString "/x.txt");
                               ("dest_path", JString "/y.txt")])].
Proof. split; by vm_compute. Qed.

(** C4 fails on the code.  [sub(self.root, '', path)] removes every
    occurrence of the root, not the leading one: for a file in
    [/watched/a/backup/watched/a], the subscriber of [/watched/a] is told
    [/backup/x.txt], while the path relative to the root is
    [/backup/watched/a/x.txt]. *)
Theorem nested_root_is_cut :
  Re.re_plain "/watched/a" = true
  ∧ (written <$> sockets (perform "/watched" (FsEvent 0 created_nested) one_subscriber) !! 0)
    = Some [Json (list_to_map [("event_type", JString "created");
                               ("is_directory", JBool false);
                               ("src_path", JString "/backup/x.txt")])]
  ∧ strip_root "/watched/a" (src_path_of created_nested)
    = Some "/backup/watched/a/x.txt".
Proof. repeat split; by vm_compute. Qed.

(** * More on option resolution *)

Lemma elem_of_py_set (x : string) (l : list string) : x ∈ py_set l ↔ x ∈ l.
Proof. apply elem_of_list_to_set. Qed.

Lemma elem_of_define_options (enable disable : list string) (x : string) :
  x ∈ define_options enable disable ↔ x ∈ resolve enable disable.
Proof.
  rewrite <-define_options_resolve. symmetry. apply elem_of_py_set.
Qed.

Lemma define_options_in_defaults (enable disable : list string) (x : string) :
  x ∈ define_options enable disable → x ∈ default_options.
Proof.
  rewrite elem_of_define_options. unfold resolve.
  case_bool_decide.
  - intros [_ Hx]%elem_of_intersection. by apply elem_of_py_set.
  - intros [Hx _]%elem_of_difference. by apply elem_of_py_set.
Qed.

(** Only the eight tokens ever come out, each once: a token that
    [enable] makes up or repeats is dropped, one that [disable] makes up
    changes nothing. *)
Theorem define_options_valid (enable disable : list string) :
  NoDup (define_options enable disable)
  ∧ (∀ x, x ∈ define_options enable disable → x ∈ default_options)
  ∧ (length (define_options enable disable) ≤ 8)%nat.
Proof.
  split; [apply define_options_NoDup|].
  split; [intros x; apply define_options_in_defaults|].
  change 8 with (length default_options).
  apply submseteq_length, NoDup_submseteq; [apply define_options_NoDup|].
  intros x. apply define_options_in_defaults.
Qed.

(** When nothing is left.  [define_options] returns the empty list
    exactly when [all] is disabled and [enable] names no token, or [all]
    is not disabled and [disable] names each of the eight. *)
Theorem define_options_empty_iff (enable disable : list string) :
  define_options enable disable = []
  ↔ ("all" ∈ disable ∧ ∀ x, x ∈ enable → x ∉ default_options)
    ∨ (("all" ∉ disable) ∧ ∀ x, x ∈ default_options → x ∈ disable).
Proof.
  unfold define_options.
  destruct (bool_decide_reflect (disable = enable ∧ enable = [])) as [[-> ->]|_].
  { split; [done|]. intros [[H _]|[_ H]].
    - by apply elem_of_nil in H.
    - exfalso. eapply not_elem_of_nil. apply (H "CRfile").
      apply (bool_decide_unpack _). by vm_compute. }
  case_bool_decide as Hall; rewrite elements_empty_iff; split.
  - intros Hempty. left. split; [done|]. intros x Hx Hd.
    apply (not_elem_of_empty (C:=gset string) x). rewrite <-Hempty.
    apply elem_of_intersection. by rewrite !elem_of_py_set.
  - intros [[_ H]|[? _]]; [|done].
    apply set_equiv. intros x. rewrite elem_of_intersection, !elem_of_py_set.
    split; [intros [? ?]; exfalso; by eapply H|by intros ?%not_elem_of_empty].
  - intros Hempty. right. split; [done|]. intros x Hx.
    destruct (decide (x ∈ disable)) as [|Hn]; [done|]. exfalso.
    apply (not_elem_of_empty (C:=gset string) x). rewrite <-Hempty.
    apply elem_of_difference. by rewrite !elem_of_py_set.
  - intros [[? _]|[_ H]]; [done|].
    apply set_equiv. intros x. rewrite elem_of_difference, !elem_of_py_set.
    split; [intros [? ?]; exfalso; auto|by intros ?%not_elem_of_empty].
Qed.

(** Repetition and order in the two lists do not matter. *)
Theorem define_options_sets (enable disable enable' disable' : list string) :
  py_set enable = py_set enable' → py_set disable = py_set disable' →
  py_set (define_options enable disable) = py_set (define_options enable' disable').
Proof.
  intros He Hd. rewrite !define_options_resolve. unfold resolve.
  rewrite He, Hd.
  assert (Hall : "all" ∈ disable ↔ "all" ∈ disable').
  { by rewrite <-!elem_of_py_set, Hd. }
  do 2 case_bool_decide; tauto.
Qed.

Lemma define_options_sets_witness :
  py_set (define_options ["MDdir"; "CRfile"; "CRfile"] ["all"; "x"; "all"])
  = py_set (define_options ["CRfile"; "MDdir"] ["x"; "all"]).
Proof.
  apply define_options_sets; apply (bool_decide_unpack _); by vm_compute.
Defined.

(** * When [re.sub] strips the root *)

Lemma atom_matches_refl c : Re.atom_matches c c = true.
Proof.
  unfold Re.atom_matches. case_bool_decide as Hdot.
  - subst c. by vm_compute.
  - by apply bool_decide_eq_true_2.
Qed.

Lemma match_here_append pattern rest : Re.match_here pattern (pattern +:+ rest) = true.
Proof.
  induction pattern as [|c pattern IH]; simpl; [done|].
  by rewrite atom_matches_refl, IH.
Qed.

Lemma scan_skip pattern repl r rest :
  Re.scan pattern repl (String.length r) (r +:+ rest) = Re.scan pattern repl 0 rest.
Proof. induction r as [|c r IH]; simpl; [by destruct rest|done]. Qed.

Lemma scan_no_occurrence pattern s :
  occurs pattern s = false → Re.scan pattern "" 0 s = s.
Proof.
  induction s as [|c s IH]; simpl; [done|].
  intros [Hhere Hrest]%orb_false_iff. rewrite Hhere. by rewrite IH.
Qed.

Lemma sub_front pattern rest :
  pattern ≠ "" → occurs pattern rest = false →
  Re.sub pattern "" (pattern +:+ rest) = rest.
Proof.
  intros Hne Hocc. unfold Re.sub. rewrite bool_decide_eq_false_2 by done.
  destruct pattern as [|c r]; [done|].
  change (String c r +:+ rest) with (String c (r +:+ rest)).
  pose proof (match_here_append (String c r) rest) as Hm.
  change (String c r +:+ rest) with (String c (r +:+ rest)) in Hm.
  cbn [Re.scan]. rewrite Hm. cbn [String.length]. rewrite Nat.sub_1_r. cbn [Nat.pred].
  simpl String.append at 1. rewrite scan_skip. by apply scan_no_occurrence.
Qed.

Lemma prefix_append r rest : String.prefix r (r +:+ rest) = true.
Proof.
  induction r as [|c r IH]; simpl; [by destruct rest|].
  destruct (Ascii.ascii_dec c c); [done|congruence].
Qed.

Lemma substring_all s : String.substring 0 (String.length s) s = s.
Proof. induction s as [|c s IH]; simpl; [done|by rewrite IH]. Qed.

Lemma strip_root_append r rest : strip_root r (r +:+ rest) = Some rest.
Proof.
  unfold strip_root. rewrite prefix_append. f_equal.
  induction r as [|c r IH]; simpl.
  - rewrite Nat.sub_0_r. apply substring_all.
  - exact IH.
Qed.

(** When the watched root is a plain pattern that matches the path of an
    event in front and nowhere after, the [src_path] of the message (and
    the [dest_path] of a moved event under the same condition) is the
    path relative to the root. *)
Theorem relative_path_when_root_in_front (w : World) (self : nat) (a : Argus)
    (ev : raw_event) (rest : string) :
  handlers w !! self = Some a →
  token_of ev ∈ options a →
  Re.re_plain (root a) = true → root a ≠ "" →
  src_path_of ev = root a +:+ rest →
  occurs (root a) rest = false →
  ∃ d, dispatch self ev w = write_msg self (dumps d) w
       ∧ d !! "src_path" = Some (JString rest)
       ∧ strip_root (root a) (src_path_of ev) = Some rest
       ∧ ∀ rest', dest_path_of ev = Some (root a +:+ rest') →
                  occurs (root a) rest' = false →
                  d !! "dest_path" = Some (JString rest').
Proof.
  intros Ha Htok _ Hne Hsrc Hocc.
  destruct (dispatch_filter w self a ev Ha) as [Hyes _].
  destruct (Hyes Htok) as (d & Hd & _ & _ & _ & Hs & Hdst).
  exists d. split; [done|]. rewrite Hsrc in Hs |- *.
  rewrite sub_front in Hs by done. split; [done|].
  split; [apply strip_root_append|].
  intros rest' Hdest Hocc'. rewrite Hdst, Hdest. simpl.
  by rewrite sub_front.
Qed.

Lemma relative_path_when_root_in_front_witness :
  ∃ d, dispatch 0 moved_x_y one_subscriber = write_msg 0 (dumps d) one_subscriber
       ∧ d !! "src_path" = Some (JString "/x.txt")
       ∧ d !! "dest_path" = Some (JString "/y.txt").
Proof.
  assert (Ha : ∃ a, handlers one_subscriber !! 0 = Some a
                    ∧ options a = default_options ∧ root a = "/watched/a").
  { vm_compute. eexists; repeat split; reflexivity. }
  destruct Ha as (a & Ha & Hopt & Hroot).
  destruct (relative_path_when_root_in_front one_subscriber 0 a moved_x_y "/x.txt" Ha)
    as (d & Hd & Hsrc & _ & Hdst).
  - rewrite Hopt. apply (bool_decide_unpack _). by vm_compute.
  - rewrite Hroot. reflexivity.
  - rewrite Hroot. discriminate.
  - rewrite Hroot. reflexivity.
  - rewrite Hroot. reflexivity.
  - exists d. split; [exact Hd|]. split; [exact Hsrc|].
    apply Hdst; rewrite Hroot; reflexivity.
Defined.

(** * Absolute paths *)

Lemma path_join_absolute a b : String.prefix "/" b = true → path_join a b = b.
Proof. unfold path_join. by intros ->. Qed.

(** A connection whose [path] begins with a slash is resolved without
    [ARGUS_ROOT]: [os.path.join] returns the path itself, nothing checks
    that it lies under the root, and the server does the same whatever
    the root is.  If the path exists and is not watched, the watch is
    registered under that very path. *)
Theorem absolute_path_ignores_root (ARGUS_ROOT ARGUS_ROOT' : string) (w : World)
    (os : OS) (kw : gmap string string) (request : gmap string (list string))
    (path_arg : string) :
  kw !! "path" = Some path_arg → String.prefix "/" path_arg = true →
  connect ARGUS_ROOT os kw request w = connect ARGUS_ROOT' os kw request w
  ∧ (os_path_exists os path_arg = true →
     path_arg ∉ dom (active_observers w) →
     define_options (default [] (request !! "enable"))
                    (default [] (request !! "disable")) ≠ [] →
     can_start os = true →
     active_observers (connect ARGUS_ROOT os kw request w).1
     = <[path_arg := fresh (dom (observers w))]> (active_observers w)).
Proof.
  intros Hkw Habs.
  assert (Hgen : ∀ R, connect R os kw request w = connect path_arg os kw request w).
  { intros R. unfold connect, open, initiation_handler, ArgusWebSocketHandler_new.
    py_unfold. simpl.
    repeat (rewrite ?lookup_insert_eq, ?insert_insert_eq; simpl).
    rewrite Hkw. simpl. by rewrite !path_join_absolute. }
  split; [by rewrite (Hgen ARGUS_ROOT), (Hgen ARGUS_ROOT')|].
  intros Hex Hnin Hopt Hstart.
  pose proof (connect_create ARGUS_ROOT w os kw request path_arg Hkw) as Hc.
  rewrite path_join_absolute in Hc by done.
  rewrite Hc by done. reflexivity.
Qed.

Lemma absolute_path_ignores_root_witness :
  connect "/watched" os_ok {["path" := "/watched/a"]} ∅ initial
  = connect "/elsewhere" os_ok {["path" := "/watched/a"]} ∅ initial.
Proof.
  apply (absolute_path_ignores_root "/watched" "/elsewhere" initial os_ok
           {["path" := "/watched/a"]} ∅ "/watched/a").
  - vm_compute; reflexivity.
  - reflexivity.
Defined.

(** * The shapes of a step

    From a well-formed world a step has one of eleven outcomes, each
    with the world it leaves written out.  Invariants of the server are
    proved by going through them. *)

Section Shapes.

Variable ARGUS_ROOT : string.
Variable P : World → World → Prop.

Let resolved (request : gmap string (list string)) : list string :=
  define_options (default [] (request !! "enable")) (default [] (request !! "disable")).

Hypothesis step_no_path : ∀ w kw request,
  wf w → kw !! "path" = None →
  P w (with_sockets (<[fresh (dom (sockets w)) := opened kw request None]> (sockets w)) w).

Hypothesis step_path_missing : ∀ w kw request path_arg,
  wf w → kw !! "path" = Some path_arg →
  P w (with_sockets
         (<[fresh (dom (sockets w)) :=
              set_closed true (set_ws_connection false
                (push (Text "Path does not exist.")
                   (opened kw request (Some (path_join ARGUS_ROOT path_arg)))))]>
            (sockets w)) w).

Hypothesis step_no_options : ∀ w kw request path_arg,
  wf w → kw !! "path" = Some path_arg →
  path_join ARGUS_ROOT path_arg ∉ dom (active_observers w) →
  resolved request = [] →
  P w (with_sockets
         (<[fresh (dom (sockets w)) :=
              opened kw request (Some (path_join ARGUS_ROOT path_arg))]>
            (sockets w)) w).

Hypothesis step_attach : ∀ w kw request path_arg h o a,
  wf w → kw !! "path" = Some path_arg →
  active_observers w !! path_join ARGUS_ROOT path_arg = Some o →
  active_handlers w !! path_join ARGUS_ROOT path_arg = Some h →
  handlers w !! h = Some a →
  P w {| active_handlers := active_handlers w;
         active_observers := active_observers w;
         handlers :=
           <[h := set_websockets (websockets a ++ [fresh (dom (sockets w))]) a]>
             (handlers w);
         observers := observers w;
         sockets :=
           <[fresh (dom (sockets w)) :=
               set_started_observer true
                 (set_observer (Some o)
                    (opened kw request (Some (path_join ARGUS_ROOT path_arg))))]>
             (sockets w) |}.

Hypothesis step_create : ∀ w kw request path_arg,
  wf w → kw !! "path" = Some path_arg →
  path_join ARGUS_ROOT path_arg ∉ dom (active_observers w) →
  resolved request ≠ [] →
  P w {| active_handlers :=
           <[path_join ARGUS_ROOT path_arg := fresh (dom (handlers w))]>
             (active_handlers w);
         active_observers :=
           <[path_join ARGUS_ROOT path_arg := fresh (dom (observers w))]>
             (active_observers w);
         handlers :=
           <[fresh (dom (handlers w)) :=
               {| websockets := [fresh (dom (sockets w))];
                  root := path_join ARGUS_ROOT path_arg;
                  options := resolved request |}]> (handlers w);
         observers :=
           <[fresh (dom (observers w)) :=
               {| watches := [(fresh (dom (handlers w)),
                               path_join ARGUS_ROOT path_arg, true)];
                  state := Running |}]> (observers w);
         sockets :=
           <[fresh (dom (sockets w)) :=
               set_started_observer true
                 (set_observer (Some (fresh (dom (observers w))))
                    (opened kw request (Some (path_join ARGUS_ROOT path_arg))))]>
             (sockets w) |}.

Hypothesis step_start_failed : ∀ w kw request path_arg,
  wf w → kw !! "path" = Some path_arg →
  path_join ARGUS_ROOT path_arg ∉ dom (active_observers w) →
  resolved request ≠ [] →
  P w {| active_handlers := active_handlers w;
         active_observers := active_observers w;
         handlers :=
           <[fresh (dom (handlers w)) :=
               {| websockets := [fresh (dom (sockets w))];
                  root := path_join ARGUS_ROOT path_arg;
                  options := resolved request |}]> (handlers w);
         observers :=
           <[fresh (dom (observers w)) :=
               {| watches := [(fresh (dom (handlers w)),
                               path_join ARGUS_ROOT path_arg, true)];
                  state := Unstarted |}]> (observers w);
         sockets :=
           <[fresh (dom (sockets w)) :=
               set_closed true (set_ws_connection false
                 (push (Text "Cannot start observer")
                    (set_observer (Some (fresh (dom (observers w))))
                       (opened kw request (Some (path_join ARGUS_ROOT path_arg))))))]>
             (sockets w) |}.

Hypothesis step_connection_lost : ∀ w s,
  wf w → P w (update_socket s (set_ws_connection false) w).1.

Hypothesis step_drop_unattached : ∀ w s,
  wf w → (∀ sk, sockets w !! s = Some sk → started_observer sk = false) →
  P w (with_sockets (delete s (sockets w)) w).

Hypothesis step_close_others : ∀ w s sk p h a,
  wf w → sockets w !! s = Some sk → started_observer sk = true →
  path sk = Some p → active_handlers w !! p = Some h → handlers w !! h = Some a →
  s ∈ websockets a →
  list_remove_first s (websockets a) ≠ [] →
  P w {| active_handlers := active_handlers w;
         active_observers := active_observers w;
         handlers :=
           <[h := set_websockets (list_remove_first s (websockets a)) a]> (handlers w);
         observers := observers w;
         sockets := delete s (sockets w) |}.

Hypothesis step_close_last : ∀ w s sk p h a o ob,
  wf w → sockets w !! s = Some sk → started_observer sk = true →
  path sk = Some p → active_handlers w !! p = Some h → handlers w !! h = Some a →
  websockets a = [s] →
  active_observers w !! p = Some o → observers w !! o = Some ob →
  state ob = Running →
  P w {| active_handlers := delete p (active_handlers w);
         active_observers := delete p (active_observers w);
         handlers := <[h := set_websockets [] a]> (handlers w);
         observers := <[o := set_state Stopped ob]> (observers w);
         sockets := delete s (sockets w) |}.

Hypothesis step_event : ∀ w o ev, wf w → P w (emit o ev w).1.

Lemma perform_cases act w : wf w → P w (perform ARGUS_ROOT act w).
Proof.
  intros Hwf. destruct act as [os kw request|s|s|o ev]; simpl.
  - destruct (kw !! "path") as [path_arg|] eqn:Hkw;
      [|rewrite connect_no_path by done; by apply step_no_path].
    set (p := path_join ARGUS_ROOT path_arg).
    destruct (os_path_exists os p) eqn:Hex;
      [|erewrite connect_path_missing by done; by apply step_path_missing].
    destruct (active_observers w !! p) as [o|] eqn:Hao.
    + destruct (wf_observer _ Hwf _ _ Hao) as (h & Hah & Hob).
      destruct (wf_handler _ Hwf _ _ Hah) as (a & Ha & _).
      erewrite connect_attach by done. by eapply step_attach.
    + assert (Hnin : p ∉ dom (active_observers w)) by by apply not_elem_of_dom.
      destruct (decide (resolved request = [])) as [Hopt|Hopt].
      { erewrite connect_empty_options by done. by apply step_no_options. }
      destruct (can_start os) eqn:Hstart.
      * erewrite connect_create by done. by apply step_create.
      * erewrite connect_start_failed by done. by apply step_start_failed.
  - by apply step_connection_lost.
  - destruct (sockets w !! s) as [sk|] eqn:Hs.
    2:{ assert (on_close s w = (w, Raised Dangling)) as ->.
        { unfold on_close. py_unfold. by rewrite Hs. }
        apply step_drop_unattached; [done|]. simpl. intros; congruence. }
    destruct (wf_callback _ Hwf _ _ Hs) as [c Hc].
    destruct (started_observer sk) eqn:Hst.
    2:{ erewrite on_close_unattached by done. simpl. rewrite drop_socket_insert.
        apply step_drop_unattached; [done|]. simpl. intros; congruence. }
    destruct (wf_attached _ Hwf _ _ Hs Hst) as (p & h & a & Hp & Hah & Hha & Hin & Hobs).
    assert (Hdom : p ∈ dom (active_observers w)).
    { rewrite <-(wf_tables _ Hwf). apply elem_of_dom. eauto. }
    destruct (active_observers w !! p) as [o|] eqn:Hao;
      [|by apply not_elem_of_dom in Hao].
    destruct (wf_observer _ Hwf _ _ Hao) as (h' & Hah' & Hob). simplify_eq.
    destruct (decide (list_remove_first s (websockets a) = [])) as [Hrest|Hrest].
    + erewrite on_close_last by done. unfold drop_socket, with_sockets. simpl.
      rewrite delete_insert_eq.
      eapply step_close_last; try done. by apply list_remove_first_nil.
    + erewrite on_close_others by done. unfold drop_socket, with_sockets. simpl.
      rewrite delete_insert_eq. by eapply step_close_others.
  - by apply step_event.
Qed.

End Shapes.

(** * What an event does *)

(** Writing to the sockets of a list without repetition: a socket is as
    before, or it is in the list with an open transport and has the
    message appended. *)
Lemma for_each_write_effect (m : message) (l : list nat) (w : World) (s : nat) :
  NoDup l →
  sockets (for_each l (λ x, write_message x m) w).1 !! s = sockets w !! s
  ∨ (s ∈ l ∧ ∃ sk, sockets w !! s = Some sk ∧ ws_connection sk = true
                   ∧ sockets (for_each l (λ x, write_message x m) w).1 !! s
                     = Some (push m sk)).
Proof.
  intros Hnd. revert w. induction Hnd as [|x l Hx Hnd IH]; intros w; simpl; [by left|].
  destruct (sockets w !! x) as [xk|] eqn:Hxk.
  2:{ left. unfold bind, write_message at 1. py_unfold. by rewrite Hxk. }
  destruct (ws_connection xk) eqn:Hc.
  2:{ left. erewrite bind_raised by (by eapply write_message_gone). done. }
  erewrite bind_returned by (by eapply write_message_open).
  destruct (IH (with_sockets (alter (push m) x (sockets w)) w)) as [Hsame|(Hin & sk & Hs & Hck & Hafter)].
  - rewrite Hsame. simpl. rewrite lookup_alter. case_decide; [subst s|by left].
    right. split; [left|]. exists xk. by rewrite Hxk.
  - right. split; [by right|]. simpl in Hs.
    rewrite lookup_alter_ne in Hs by (intros ->; done).
    exists sk. done.
Qed.

(** Under the invariant, an event leaves the world alone or is the
    fan-out of one [dumps] by the handler registered with the observer. *)
Lemma emit_world (w : World) (o : nat) (ev : raw_event) :
  wf w →
  (emit o ev w).1 = w
  ∨ ∃ p h a d,
      active_observers w !! p = Some o ∧ active_handlers w !! p = Some h
      ∧ handlers w !! h = Some a ∧ token_of ev ∈ options a
      ∧ dom d = fields_of ev
      ∧ (emit o ev w).1 = (for_each (websockets a) (λ x, write_message x (dumps d)) w).1.
Proof.
  intros Hwf. unfold emit.
  destruct (observers w !! o) as [ob|] eqn:Hob.
  2:{ left. erewrite bind_raised; [reflexivity|].
      unfold get_observer, get, or_raise, bind, raise. by rewrite Hob. }
  erewrite bind_returned
    by (unfold get_observer, get, or_raise, bind, ret; rewrite Hob; reflexivity).
  destruct (state ob) eqn:Hst; try by left.
  destruct (wf_running _ Hwf _ _ Hob Hst) as (h & p & Hw & Hao).
  destruct (wf_observer _ Hwf _ _ Hao) as (h' & Hah & Hob').
  rewrite Hob in Hob'. injection Hob' as ->. simpl in Hw.
  injection Hw as <-. cbn [watches].
  change (for_each [(h', p, true)] (λ wt, dispatch wt.1.1 ev))
    with (bind (dispatch h' ev) (λ _, ret ())).
  destruct (wf_handler _ Hwf _ _ Hah) as (a & Ha & _).
  destruct (dispatch_filter w h' a ev Ha) as [Hyes Hno].
  destruct (decide (token_of ev ∈ options a)) as [Htok|Htok].
  - destruct (Hyes Htok) as (d & Hd & Hdom & _). right.
    exists p, h', a, d. do 5 (split; [done|]).
    unfold bind at 1. rewrite Hd. unfold write_msg.
    erewrite bind_returned
      by (unfold get_handler, get, or_raise, bind, ret; rewrite Ha; reflexivity).
    by destruct (for_each _ _ w) as [? [[]|]].
  - left. unfold bind. by rewrite (Hno Htok).
Qed.

(** An event changes no table, handler or observer.  It changes a socket
    only by appending one message to what it has written, and only when
    the socket is a subscriber of the path that the reporting observer is
    registered for and the event's token is among the handler's options:
    sessions on other paths and unattached sessions are out of reach. *)
Theorem event_reaches_subscribers_only (ARGUS_ROOT : string) (w : World)
    (o : nat) (ev : raw_event) (s : nat) :
  reachable ARGUS_ROOT w →
  let w' := perform ARGUS_ROOT (FsEvent o ev) w in
  active_handlers w' = active_handlers w
  ∧ active_observers w' = active_observers w
  ∧ handlers w' = handlers w
  ∧ observers w' = observers w
  ∧ (sockets w' !! s = sockets w !! s
     ∨ ∃ p h a sk d,
         active_observers w !! p = Some o ∧ active_handlers w !! p = Some h
         ∧ handlers w !! h = Some a ∧ token_of ev ∈ options a
         ∧ s ∈ websockets a ∧ sockets w !! s = Some sk
         ∧ started_observer sk = true ∧ path sk = Some p
         ∧ ws_connection sk = true
         ∧ dom d = fields_of ev
         ∧ sockets w' !! s = Some (push (dumps d) sk)).
Proof.
  intros Hreach w'. pose proof (reachable_wf _ _ Hreach) as Hwf. subst w'. simpl.
  destruct (frames_emit o ev w) as (E1 & E2 & E3 & E4 & _).
  do 4 (split; [done|]).
  destruct (emit_world w o ev Hwf) as [->|(p & h & a & d & Hao & Hah & Ha & Htok & Hdom & ->)];
    [by left|].
  assert (Hnd : NoDup (websockets a)).
  { destruct (wf_handler _ Hwf _ _ Hah) as (a' & Ha' & _ & _ & Hnd & _). congruence. }
  destruct (for_each_write_effect (dumps d) (websockets a) w s Hnd)
    as [Hsame|(Hin & sk & Hs & Hc & Hafter)]; [by left|].
  right. destruct (wf_subscriber _ Hwf _ _ _ _ Hah Ha Hin) as (sk' & Hs' & Hst & Hp).
  rewrite Hs in Hs'. injection Hs' as <-. exists p, h, a, sk, d. done.
Qed.

Lemma event_reaches_subscribers_only_witness :
  observers (perform "/watched" (FsEvent 0 created_x) two_subscribers)
  = observers two_subscribers.
Proof.
  assert (Hreach : reachable "/watched" two_subscribers)
    by apply reachable_run, reachable_initial.
  exact (proj1 (proj2 (proj2 (proj2
           (event_reaches_subscribers_only "/watched" two_subscribers 0 created_x 1
              Hreach))))).
Defined.

(** * Events in a row *)

Lemma dispatch_message_for (w : World) (h : nat) (a : Argus) (ev : raw_event) :
  handlers w !! h = Some a →
  dispatch h ev w
  = match message_for a ev with
    | Some m => write_msg h m w
    | None => (w, Returned ())
    end.
Proof.
  intros Ha. unfold message_for.
  destruct ev as [[dir src]|[dir src]|[dir src]|[dir src dst]]; simpl;
    unfold on_created, on_modified, on_deleted, on_moved;
    (erewrite bind_returned
       by (unfold get_handler, get, or_raise, bind, ret; rewrite Ha; reflexivity));
    simpl; destruct dir; simpl; by case_bool_decide.
Qed.

(** The socket store after the messages [ms] went, one after the other,
    to the sockets of [l]. *)
Lemma deliver_written (ms : list message) (l : list nat)
    (st : gmap nat ArgusWebSocketHandler) (s : nat) (sk : ArgusWebSocketHandler) :
  NoDup l → s ∈ l → st !! s = Some sk →
  foldl (λ st m, deliver m l st) st ms !! s
  = Some (set_written (written sk ++ ms) sk).
Proof.
  intros Hnd Hin. revert st sk. induction ms as [|m ms IH]; intros st sk Hs; simpl.
  - rewrite app_nil_r. by destruct sk.
  - erewrite IH; [|by rewrite deliver_lookup_in, Hs].
    simpl. by rewrite <-app_assoc.
Qed.

Lemma deliver_elsewhere (ms : list message) (l : list nat)
    (st : gmap nat ArgusWebSocketHandler) (s : nat) :
  s ∉ l → foldl (λ st m, deliver m l st) st ms !! s = st !! s.
Proof.
  intros Hnin. revert st. induction ms as [|m ms IH]; intros st; simpl; [done|].
  by rewrite IH, deliver_lookup_notin.
Qed.

Lemma deliver_transport_open m l st s :
  transport_open st s → transport_open (deliver m l st) s.
Proof.
  revert st. induction l as [|x l IH]; intros st Hs; simpl; [done|].
  by apply IH, transport_open_alter_push.
Qed.

Section Order.

Variable ARGUS_ROOT : string.

Lemma events_run (evs : list raw_event) :
  ∀ w p h a o,
    wf w → active_observers w !! p = Some o → active_handlers w !! p = Some h →
    handlers w !! h = Some a →
    Forall (transport_open (sockets w)) (websockets a) →
    run ARGUS_ROOT (map (FsEvent o) evs) w
    = with_sockets
        (foldl (λ st m, deliver m (websockets a) st) (sockets w)
           (omap (message_for a) evs)) w.
Proof.
  induction evs as [|ev evs IH]; intros w p h a o Hwf Hao Hah Ha Hopen; simpl.
  - by rewrite with_sockets_id.
  - assert (Hstep : (emit o ev w).1
                    = with_sockets
                        (match message_for a ev with
                         | Some m => deliver m (websockets a) (sockets w)
                         | None => sockets w
                         end) w).
    { destruct (wf_observer _ Hwf _ _ Hao) as (h' & Hah' & Hob).
      rewrite Hah in Hah'. injection Hah' as <-.
      unfold emit.
      erewrite bind_returned
        by (unfold get_observer, get, or_raise, bind, ret; rewrite Hob; reflexivity).
      cbn [state watches].
      change (for_each [(h, p, true)] (λ wt, dispatch wt.1.1 ev))
        with (bind (dispatch h ev) (λ _, ret ())).
      unfold bind at 1. rewrite (dispatch_message_for w h a ev Ha).
      destruct (message_for a ev) as [m|]; [|by rewrite with_sockets_id].
      by erewrite write_msg_open. }
    rewrite Hstep.
    assert (Hwf' : wf (emit o ev w).1).
    { eapply wf_transport_only; [apply frames_emit|done]. }
    rewrite Hstep in Hwf'.
    erewrite (IH _ p h a o Hwf'); try done.
    + simpl. destruct (message_for a ev); reflexivity.
    + simpl. destruct (message_for a ev); [|done].
      eapply Forall_impl; [exact Hopen|]. intros x. apply deliver_transport_open.
Qed.

End Order.

(** Events that an observer reports one after the other reach every
    subscriber of its path in that order, each one once if its token is
    among the handler's options and not at all otherwise, as long as all
    transports are open; no other socket is written to. *)
Theorem events_in_order (ARGUS_ROOT : string) (w : World) (p : string) (o : nat)
    (evs : list raw_event) :
  reachable ARGUS_ROOT w →
  active_observers w !! p = Some o →
  Forall (transport_open (sockets w)) (subscribers_of w p) →
  ∃ h a,
    active_handlers w !! p = Some h ∧ handlers w !! h = Some a
    ∧ let w' := run ARGUS_ROOT (map (FsEvent o) evs) w in
      (∀ s sk, s ∈ websockets a → sockets w !! s = Some sk →
         sockets w' !! s
         = Some (set_written (written sk ++ omap (message_for a) evs) sk))
      ∧ (∀ s, s ∉ websockets a → sockets w' !! s = sockets w !! s).
Proof.
  intros Hreach Hao Hopen. pose proof (reachable_wf _ _ Hreach) as Hwf.
  destruct (wf_observer _ Hwf _ _ Hao) as (h & Hah & Hob).
  destruct (wf_handler _ Hwf _ _ Hah) as (a & Ha & _ & _ & Hnd & _).
  unfold subscribers_of in Hopen. rewrite Hah, Ha in Hopen.
  exists h, a. split; [done|]. split; [done|].
  cbv zeta. erewrite events_run by done. simpl. split.
  - intros s sk Hin Hs. by apply deliver_written.
  - intros s Hnin. by apply deliver_elsewhere.
Qed.

Lemma events_in_order_witness :
  (written <$> sockets (run "/watched"
                          (map (FsEvent 0) [created_x; moved_x_y]) two_subscribers) !! 1)
  = Some [dumps (payload "/watched/a" created_x);
          dumps (payload "/watched/a" moved_x_y)].
Proof.
  assert (Hreach : reachable "/watched" two_subscribers)
    by apply reachable_run, reachable_initial.
  assert (Hao : active_observers two_subscribers !! "/watched/a" = Some 0)
    by (vm_compute; reflexivity).
  assert (Hopen : Forall (transport_open (sockets two_subscribers))
                    (subscribers_of two_subscribers "/watched/a")).
  { assert (subscribers_of two_subscribers "/watched/a" = [0; 1]) as ->
      by (vm_compute; reflexivity).
    repeat constructor; vm_compute; eexists; split; reflexivity. }
  destruct (events_in_order "/watched" two_subscribers "/watched/a" 0
              [created_x; moved_x_y] Hreach Hao Hopen)
    as (h & a & Hah & Ha & Hin & _).
  assert (Hsk : ∃ sk, sockets two_subscribers !! 1 = Some sk ∧ written sk = []).
  { vm_compute. eexists; split; reflexivity. }
  destruct Hsk as (sk & Hsk & Hw).
  assert (Ha0 : ∃ a', handlers two_subscribers !! 0 = Some a'
                      ∧ websockets a' = [0; 1] ∧ root a' = "/watched/a"
                      ∧ options a' = default_options).
  { vm_compute. eexists; repeat split; reflexivity. }
  destruct Ha0 as (a' & Ha' & Hws & Hroot & Hopt).
  assert (h = 0) as -> by (vm_compute in Hah; congruence).
  assert (a = a') as -> by congruence.
  cbv zeta in Hin. rewrite (Hin 1 sk); [|rewrite Hws; set_solver|exact Hsk].
  simpl. rewrite Hw. unfold message_for. rewrite Hroot, Hopt. reflexivity.
Defined.

(** * Callbacks return *)

Lemma for_each_write_outcome (m : message) (l : list nat) (w : World) :
  Forall (λ x, is_Some (sockets w !! x)) l →
  (for_each l (λ x, write_message x m) w).2 = Returned ()
  ∨ (for_each l (λ x, write_message x m) w).2 = Raised WebSocketClosedError.
Proof.
  revert w. induction l as [|x l IH]; intros w Hl; simpl; [by left|].
  apply Forall_cons in Hl as [[xk Hx] Hl].
  destruct (ws_connection xk) eqn:Hc.
  - erewrite bind_returned by (by eapply write_message_open).
    apply IH. simpl. eapply Forall_impl; [exact Hl|].
    intros y [yk Hy]. rewrite lookup_alter. case_decide; subst; rewrite ?Hy; simpl; eauto.
  - right. by erewrite bind_raised by (by eapply write_message_gone).
Qed.

Section Returns.

Variable ARGUS_ROOT : string.

Lemma connect_returns os kw request path_arg w :
  wf w → kw !! "path" = Some path_arg →
  (connect ARGUS_ROOT os kw request w).2 = Returned (fresh (dom (sockets w))).
Proof.
  intros Hwf Hkw. set (p := path_join ARGUS_ROOT path_arg).
  destruct (os_path_exists os p) eqn:Hex;
    [|erewrite connect_path_missing by done; done].
  destruct (active_observers w !! p) as [o|] eqn:Hao.
  - destruct (wf_observer _ Hwf _ _ Hao) as (h & Hah & Hob).
    destruct (wf_handler _ Hwf _ _ Hah) as (a & Ha & _).
    erewrite connect_attach by done; done.
  - assert (Hnin : p ∉ dom (active_observers w)) by by apply not_elem_of_dom.
    destruct (decide (define_options (default [] (request !! "enable"))
                        (default [] (request !! "disable")) = [])) as [Hopt|Hopt].
    { erewrite connect_empty_options by done; done. }
    destruct (can_start os) eqn:Hstart.
    + erewrite connect_create by done; done.
    + erewrite connect_start_failed by done; done.
Qed.

Lemma on_close_returns s w :
  wf w → is_Some (sockets w !! s) → (on_close s w).2 = Returned ().
Proof.
  intros Hwf [sk Hs].
  destruct (wf_callback _ Hwf _ _ Hs) as [c Hc].
  destruct (started_observer sk) eqn:Hst;
    [|erewrite on_close_unattached by done; done].
  destruct (wf_attached _ Hwf _ _ Hs Hst) as (p & h & a & Hp & Hah & Hha & Hin & Hobs).
  assert (Hdom : p ∈ dom (active_observers w)).
  { rewrite <-(wf_tables _ Hwf). apply elem_of_dom. eauto. }
  destruct (active_observers w !! p) as [o|] eqn:Hao;
    [|by apply not_elem_of_dom in Hao].
  destruct (wf_observer _ Hwf _ _ Hao) as (h' & Hah' & Hob).
  rewrite ?Hao in Hobs. clear Hah'.
  destruct (decide (list_remove_first s (websockets a) = [])) as [Hrest|Hrest].
  - erewrite on_close_last by done; done.
  - erewrite on_close_others by done; done.
Qed.

Lemma emit_outcome o ev w :
  wf w → is_Some (observers w !! o) →
  (emit o ev w).2 = Returned () ∨ (emit o ev w).2 = Raised WebSocketClosedError.
Proof.
  intros Hwf [ob Hob]. unfold emit.
  erewrite bind_returned
    by (unfold get_observer, get, or_raise, bind, ret; rewrite Hob; reflexivity).
  destruct (state ob) eqn:Hst; try by left.
  destruct (wf_running _ Hwf _ _ Hob Hst) as (h & p & Hw & Hao).
  destruct (wf_observer _ Hwf _ _ Hao) as (h' & Hah & Hob').
  rewrite Hob in Hob'. injection Hob' as ->. simpl in Hw. injection Hw as <-.
  cbn [watches].
  change (for_each [(h', p, true)] (λ wt, dispatch wt.1.1 ev))
    with (bind (dispatch h' ev) (λ _, ret ())).
  destruct (wf_handler _ Hwf _ _ Hah) as (a & Ha & _).
  unfold bind. rewrite (dispatch_message_for w h' a ev Ha).
  destruct (message_for a ev) as [m|]; [|by left].
  unfold write_msg.
  erewrite bind_returned
    by (unfold get_handler, get, or_raise, bind, ret; rewrite Ha; reflexivity).
  destruct (for_each_write_outcome m (websockets a) w) as [Hr|Hr].
  - apply Forall_forall. intros x Hx.
    destruct (wf_subscriber _ Hwf _ _ _ _ Hah Ha Hx) as (sk & Hs & _). eauto.
  - left. revert Hr. by destruct (for_each (websockets a) _ w) as [w1 [[]|e]].
  - right. revert Hr. destruct (for_each (websockets a) _ w) as [w1 [[]|e]]; [done|].
    simpl. intros Hr. by injection Hr as ->.
Qed.

End Returns.

(** In every world the server reaches: opening a connection whose URL
    has a [path] returns (without one, [os.path.join] raises), closing a
    live connection returns (the lookups [active_handlers[self.path]] and
    the two [del] never miss), and an event of a known observer returns
    or raises [WebSocketClosedError], nothing else. *)
Theorem callbacks_return (ARGUS_ROOT : string) (w : World) :
  reachable ARGUS_ROOT w →
  (∀ os kw request,
     (connect ARGUS_ROOT os kw request w).2
     = match kw !! "path" with
       | Some _ => Returned (fresh (dom (sockets w)))
       | None => Raised AttributeError
       end)
  ∧ (∀ s, is_Some (sockets w !! s) → (on_close s w).2 = Returned ())
  ∧ (∀ o ev, is_Some (observers w !! o) →
       (emit o ev w).2 = Returned ()
       ∨ (emit o ev w).2 = Raised WebSocketClosedError).
Proof.
  intros Hreach. pose proof (reachable_wf _ _ Hreach) as Hwf. split; [|split].
  - intros os kw request. destruct (kw !! "path") as [path_arg|] eqn:Hkw.
    + by eapply connect_returns.
    + by rewrite connect_no_path.
  - intros s. by apply on_close_returns.
  - intros o ev. by apply emit_outcome.
Qed.

Lemma callbacks_return_witness :
  (on_close 0 two_subscribers).2 = Returned ()
  ∧ (emit 0 created_x first_lost).2 = Raised WebSocketClosedError.
Proof.
  assert (Hreach : reachable "/watched" two_subscribers)
    by apply reachable_run, reachable_initial.
  destruct (callbacks_return "/watched" two_subscribers Hreach) as (_ & Hclose & _).
  split.
  - apply Hclose. vm_compute. eauto.
  - by vm_compute.
Defined.

(** * Invariants of the registry *)

(** In every world the server reaches, the running observers are the
    registered ones: an observer runs exactly when some path is
    registered for it, and that path is the one, and the only one, it
    watches, with the handler registered for it.  No observer is left
    running without an entry, and no entry names a dead observer. *)
Theorem running_iff_registered (ARGUS_ROOT : string) (w : World) (o : nat) :
  reachable ARGUS_ROOT w →
  ((∃ ob, observers w !! o = Some ob ∧ state ob = Running)
   ↔ ∃ p, active_observers w !! p = Some o)
  ∧ (∀ p, active_observers w !! p = Some o →
       ∃ h, active_handlers w !! p = Some h
            ∧ observers w !! o = Some {| watches := [(h, p, true)]; state := Running |})
  ∧ (∀ p1 p2, active_observers w !! p1 = Some o →
              active_observers w !! p2 = Some o → p1 = p2).
Proof.
  intros Hreach. pose proof (reachable_wf _ _ Hreach) as Hwf. split; [split|split].
  - intros (ob & Hob & Hst). destruct (wf_running _ Hwf _ _ Hob Hst) as (h & p & _ & Hp).
    eauto.
  - intros (p & Hp). destruct (wf_observer _ Hwf _ _ Hp) as (h & _ & Hob). eauto.
  - intros p Hp. by apply (wf_observer _ Hwf).
  - intros p1 p2 H1 H2.
    destruct (wf_observer _ Hwf _ _ H1) as (h1 & _ & Hob1).
    destruct (wf_observer _ Hwf _ _ H2) as (h2 & _ & Hob2). congruence.
Qed.

Lemma running_iff_registered_witness :
  ∃ ob, observers two_subscribers !! 0 = Some ob ∧ state ob = Running.
Proof.
  assert (Hreach : reachable "/watched" two_subscribers)
    by apply reachable_run, reachable_initial.
  apply (proj1 (running_iff_registered "/watched" two_subscribers 0 Hreach)).
  exists "/watched/a". vm_compute; reflexivity.
Defined.

(** In every world the server reaches, the subscriber list of a
    registered path is not empty, has no socket twice, and holds exactly
    the live sessions that are attached with that path; so a session is
    in the list of one path at most. *)
Theorem subscribers_are_the_attached_sessions (ARGUS_ROOT : string) (w : World)
    (p : string) (h : nat) :
  reachable ARGUS_ROOT w →
  active_handlers w !! p = Some h →
  ∃ a, handlers w !! h = Some a ∧ root a = p
       ∧ websockets a ≠ [] ∧ NoDup (websockets a)
       ∧ ∀ s, s ∈ websockets a
              ↔ ∃ sk, sockets w !! s = Some sk ∧ started_observer sk = true
                      ∧ path sk = Some p.
Proof.
  intros Hreach Hah. pose proof (reachable_wf _ _ Hreach) as Hwf.
  destruct (wf_handler _ Hwf _ _ Hah) as (a & Ha & Hroot & Hne & Hnd & _).
  exists a. do 4 (split; [done|]). intros s. split.
  - intros Hin. by eapply wf_subscriber.
  - intros (sk & Hs & Hst & Hp).
    destruct (wf_attached _ Hwf _ _ Hs Hst) as (p' & h' & a' & Hp' & Hah' & Ha' & Hin & _).
    congruence.
Qed.

Lemma subscribers_are_the_attached_sessions_witness :
  ∃ a, handlers two_subscribers !! 0 = Some a ∧ NoDup (websockets a).
Proof.
  assert (Hreach : reachable "/watched" two_subscribers)
    by apply reachable_run, reachable_initial.
  assert (Hah : active_handlers two_subscribers !! "/watched/a" = Some 0)
    by (vm_compute; reflexivity).
  destruct (subscribers_are_the_attached_sessions "/watched" two_subscribers
              "/watched/a" 0 Hreach Hah) as (a & Ha & _ & _ & Hnd & _).
  exists a. by split.
Defined.

(** * Invariants of the stores *)

Section Stores.

Variable ARGUS_ROOT : string.

Lemma options_valid_resolved (request : gmap string (list string)) :
  define_options (default [] (request !! "enable"))
                 (default [] (request !! "disable")) ≠ [] →
  options_valid (define_options (default [] (request !! "enable"))
                   (default [] (request !! "disable"))).
Proof.
  intros Hne. split; [done|]. split; [apply define_options_NoDup|].
  intros x. apply define_options_in_defaults.
Qed.

Lemma options_valid_perform act w :
  wf w →
  (∀ h a, handlers w !! h = Some a → options_valid (options a)) →
  ∀ h a, handlers (perform ARGUS_ROOT act w) !! h = Some a → options_valid (options a).
Proof.
  revert act w.
  apply (perform_cases ARGUS_ROOT
           (λ w w', (∀ h a, handlers w !! h = Some a → options_valid (options a)) →
                    ∀ h a, handlers w' !! h = Some a → options_valid (options a)));
    try (intros; simpl in *; by eauto).
  - intros w kw request path_arg h o a Hwf Hkw Hao Hah Ha Hgood h' a'. simpl.
    rewrite lookup_insert. case_decide; [|by eauto].
    intros [= <-]. simpl. by eapply Hgood.
  - intros w kw request path_arg Hwf Hkw Hnin Hopt Hgood h' a'. simpl.
    rewrite lookup_insert. case_decide; [|by eauto].
    intros [= <-]. simpl. by apply options_valid_resolved.
  - intros w kw request path_arg Hwf Hkw Hnin Hopt Hgood h' a'. simpl.
    rewrite lookup_insert. case_decide; [|by eauto].
    intros [= <-]. simpl. by apply options_valid_resolved.
  - intros w s Hwf Hgood h a. rewrite keeps_handlers_update_socket. by eauto.
  - intros w s sk p h a Hwf Hs Hst Hp Hah Ha Hin Hrest Hgood h' a'. simpl.
    rewrite lookup_insert. case_decide; [|by eauto].
    intros [= <-]. simpl. by eapply Hgood.
  - intros w s sk p h a o ob Hwf Hs Hst Hp Hah Ha Hws Hao Hob Hrun Hgood h' a'. simpl.
    rewrite lookup_insert. case_decide; [|by eauto].
    intros [= <-]. simpl. by eapply Hgood.
  - intros w o ev Hwf Hgood h a.
    destruct (frames_emit o ev w) as (_ & _ & -> & _). by eauto.
Qed.

Lemma later_state_refl ob : later_state ob ob.
Proof. split; [done|by left]. Qed.

Lemma later_state_trans ob1 ob2 ob3 :
  later_state ob1 ob2 → later_state ob2 ob3 → later_state ob1 ob3.
Proof.
  intros [Hw1 H1] [Hw2 H2]. split; [congruence|].
  destruct H1 as [E1|[E1 E1']], H2 as [E2|[E2 E2']]; try (left; congruence);
    right; split; congruence.
Qed.

Lemma later_state_perform act w :
  wf w →
  ∀ o ob, observers w !! o = Some ob →
          ∃ ob', observers (perform ARGUS_ROOT act w) !! o = Some ob'
                 ∧ later_state ob ob'.
Proof.
  revert act w.
  apply (perform_cases ARGUS_ROOT
           (λ w w', ∀ o ob, observers w !! o = Some ob →
                            ∃ ob', observers w' !! o = Some ob' ∧ later_state ob ob'));
    try (intros; simpl in *; eauto using later_state_refl; fail).
  - intros w kw request path_arg Hwf Hkw Hnin Hopt o ob Hob. simpl.
    exists ob. split; [|apply later_state_refl].
    rewrite lookup_insert_ne; [done|]. intros <-. by rewrite fresh_lookup in Hob.
  - intros w kw request path_arg Hwf Hkw Hnin Hopt o ob Hob. simpl.
    exists ob. split; [|apply later_state_refl].
    rewrite lookup_insert_ne; [done|]. intros <-. by rewrite fresh_lookup in Hob.
  - intros w s Hwf o ob Hob. exists ob. split; [|apply later_state_refl].
    destruct (frames_update_socket s (set_ws_connection false)
                ltac:(intros; by repeat split) w) as (_ & _ & _ & -> & _). done.
  - intros w s sk p h a o ob Hwf Hs Hst Hp Hah Ha Hws Hao Hob Hrun o' ob' Hob'. simpl.
    rewrite lookup_insert. case_decide; subst.
    + rewrite Hob in Hob'. injection Hob' as <-. eexists. split; [done|].
      split; [done|]. right. by split.
    + exists ob'. split; [done|apply later_state_refl].
  - intros w o ev Hwf o' ob Hob. exists ob. split; [|apply later_state_refl].
    destruct (frames_emit o ev w) as (_ & _ & _ & -> & _). done.
Qed.

End Stores.

(** Every handler the server ever builds, registered or not, filters on
    at least one token, on default tokens only, and on none twice. *)
Theorem handler_options_valid (ARGUS_ROOT : string) (w : World) (h : nat) (a : Argus) :
  reachable ARGUS_ROOT w → handlers w !! h = Some a →
  options a ≠ [] ∧ NoDup (options a) ∧ ∀ x, x ∈ options a → x ∈ default_options.
Proof.
  intros Hreach. revert h a. induction Hreach as [|act w Hreach IH].
  - intros h a. simpl. by rewrite lookup_empty.
  - apply options_valid_perform; [by apply reachable_wf in Hreach|exact IH].
Qed.

Lemma handler_options_valid_witness :
  ∃ a, handlers picky_subscriber !! 0 = Some a ∧ options a ≠ [].
Proof.
  assert (Hreach : reachable "/watched" picky_subscriber)
    by apply reachable_run, reachable_initial.
  assert (Ha : ∃ a, handlers picky_subscriber !! 0 = Some a).
  { vm_compute. eexists; reflexivity. }
  destruct Ha as (a & Ha). exists a. split; [exact Ha|].
  exact (proj1 (handler_options_valid "/watched" picky_subscriber 0 a Hreach Ha)).
Defined.

(** An observer only moves forward.  Whatever the server does from a
    world it has reached, an observer in the store stays there with the
    watches it has, and its state changes in one way only, from running
    to stopped: a stopped observer is never started again, and one that
    failed to start is never retried. *)
Theorem observer_lifecycle (ARGUS_ROOT : string) (w : World) (o : nat)
    (ob : Observer) (l : list action) :
  reachable ARGUS_ROOT w → observers w !! o = Some ob →
  ∃ ob', observers (run ARGUS_ROOT l w) !! o = Some ob'
         ∧ watches ob' = watches ob
         ∧ (state ob' = state ob ∨ (state ob = Running ∧ state ob' = Stopped)).
Proof.
  revert w ob. induction l as [|act l IH]; intros w ob Hreach Hob; simpl.
  - exists ob. split; [done|]. split; [done|by left].
  - destruct (later_state_perform ARGUS_ROOT act w (reachable_wf _ _ Hreach) o ob Hob)
      as (ob1 & Hob1 & Hl1).
    destruct (IH (perform ARGUS_ROOT act w) ob1 (reachable_step _ _ _ Hreach) Hob1)
      as (ob' & Hob' & Hw & Hst).
    exists ob'. split; [done|].
    by apply (later_state_trans ob ob1 ob').
Qed.

Lemma observer_lifecycle_witness :
  ∃ ob', observers (run "/watched"
                      [Disconnect 0; Disconnect 1; subscribe os_ok "a" ∅]
                      two_subscribers) !! 0 = Some ob'
         ∧ state ob' = Stopped.
Proof.
  assert (Hreach : reachable "/watched" two_subscribers)
    by apply reachable_run, reachable_initial.
  assert (Hob : ∃ ob, observers two_subscribers !! 0 = Some ob).
  { vm_compute. eexists; reflexivity. }
  destruct Hob as (ob & Hob).
  destruct (observer_lifecycle "/watched" two_subscribers 0 ob
              [Disconnect 0; Disconnect 1; subscribe os_ok "a" ∅] Hreach Hob)
    as (ob' & Hob' & _ & _).
  exists ob'. split; [exact Hob'|].
  vm_compute in Hob'. by injection Hob' as <-.
Defined.

(** * What sessions are sent *)

Lemma session_ok_push_event sk d :
  started_observer sk = true → session_ok sk → session_ok (push (Json d) sk).
Proof.
  unfold session_ok. simpl. intros ->. intros [Hc Hw]. split; [done|].
  apply Forall_app. split; [done|]. by apply Forall_singleton.
Qed.

Lemma sessions_ok_perform (ARGUS_ROOT : string) act w :
  wf w →
  (∀ s sk, sockets w !! s = Some sk → session_ok sk) →
  ∀ s sk, sockets (perform ARGUS_ROOT act w) !! s = Some sk → session_ok sk.
Proof.
  revert act w.
  assert (Hdiag1 : Text "Path does not exist." ∈ diagnostics) by left.
  assert (Hdiag2 : Text "Cannot start observer" ∈ diagnostics) by (right; left).
  apply (perform_cases ARGUS_ROOT
           (λ w w', (∀ s sk, sockets w !! s = Some sk → session_ok sk) →
                    ∀ s sk, sockets w' !! s = Some sk → session_ok sk));
    try (intros; simpl in *;
         match goal with
         | H : <[_ := _]> _ !! _ = Some _ |- _ =>
             rewrite lookup_insert in H; case_decide;
             [injection H as <-; unfold session_ok; simpl; eauto|by eauto]
         | H : delete _ _ !! _ = Some _ |- _ =>
             apply lookup_delete_Some in H as [_ H]; by eauto
         end; fail).
  - intros w s Hwf Hgood s' sk'. py_unfold.
    destruct (sockets w !! s) as [sk|] eqn:Hs; simpl; [|by eauto].
    rewrite lookup_insert. case_decide; [|by eauto].
    intros [= <-]. subst. apply (Hgood _ _ Hs).
  - intros w o ev Hwf Hgood s sk.
    destruct (emit_world w o ev Hwf)
      as [->|(p & h & a & d & Hao & Hah & Ha & Htok & Hdom & ->)]; [by eauto|].
    assert (Hnd : NoDup (websockets a)).
    { destruct (wf_handler _ Hwf _ _ Hah) as (a' & Ha' & _ & _ & Hnd & _). congruence. }
    destruct (for_each_write_effect (dumps d) (websockets a) w s Hnd)
      as [->|(Hin & sk0 & Hs & Hc & ->)]; [by eauto|].
    intros [= <-].
    destruct (wf_subscriber _ Hwf _ _ _ _ Hah Ha Hin) as (sk1 & Hs1 & Hst & _).
    rewrite Hs in Hs1. injection Hs1 as <-.
    apply session_ok_push_event; [done|by eauto].
Qed.

(** What a session was sent tells what it is.  In every world the server
    reaches, an attached session is not closed and was sent event
    messages only; a closed session is not attached and was sent exactly
    one message, one of the two diagnostics; a session that is neither
    attached nor closed (its options resolved to nothing, or its request
    had no path) was sent nothing. *)
Theorem sessions_are_sent_what_they_are (ARGUS_ROOT : string) (w : World) (s : nat)
    (sk : ArgusWebSocketHandler) :
  reachable ARGUS_ROOT w → sockets w !! s = Some sk →
  (started_observer sk = true → closed sk = false ∧ Forall is_event (written sk))
  ∧ (closed sk = true →
       started_observer sk = false
       ∧ (written sk = [Text "Path does not exist."]
          ∨ written sk = [Text "Cannot start observer"]))
  ∧ (started_observer sk = false → closed sk = false → written sk = []).
Proof.
  intros Hreach Hs.
  assert (Hok : session_ok sk).
  { revert s sk Hs. induction Hreach as [|act w Hreach IH].
    - intros s sk. simpl. by rewrite lookup_empty.
    - apply sessions_ok_perform; [by apply reachable_wf in Hreach|exact IH]. }
  unfold session_ok in Hok.
  destruct (started_observer sk) eqn:Est, (closed sk) eqn:Ec.
  - by destruct Hok.
  - destruct Hok as [_ Hw]. split; [by intros _|]. by split.
  - destruct Hok as (m & Hm & ->). split; [done|]. split; [|done]. intros _.
    split; [done|].
    repeat (apply elem_of_cons in Hm as [->|Hm]; [by auto|]).
    by apply elem_of_nil in Hm.
  - split; [done|]. by split.
Qed.

Lemma sessions_are_sent_what_they_are_witness :
  ∃ sk, sockets (perform "/watched" (subscribe os_ok "b" ∅) two_subscribers) !! 2
        = Some sk
        ∧ closed sk = true ∧ started_observer sk = false.
Proof.
  assert (Hreach : reachable "/watched"
                     (perform "/watched" (subscribe os_ok "b" ∅) two_subscribers)).
  { apply reachable_step, reachable_run, reachable_initial. }
  assert (Hs : ∃ sk, sockets (perform "/watched" (subscribe os_ok "b" ∅) two_subscribers)
                       !! 2 = Some sk ∧ closed sk = true).
  { vm_compute. eexists; split; reflexivity. }
  destruct Hs as (sk & Hs & Hc).
  destruct (sessions_are_sent_what_they_are "/watched" _ 2 sk Hreach Hs)
    as (_ & Hclosed & _).
  destruct (Hclosed Hc) as [Hst _].
  exists sk. split; [exact Hs|]. split; [exact Hc|exact Hst].
Defined.
